(** * Open3D tensor point cloud: [cpp/open3d/t/geometry/PointCloud.cpp]

    A shallow embedding of the tensor-based [PointCloud]: its constructors,
    the four in-place spatial transforms and the voxel-grid down-sampling.

    - Tensors are handles (shape, device, blob) into a heap of blobs, because
      the code relies on the shallow copy semantics of [core::Tensor]
      ([Tensor transform = translation] shares the storage of its argument).
    - The element type is a parameter ([Scalar]).  It is instantiated with
      IEEE binary64 ([double], through [SpecFloat]), on which the element-wise
      steps of the down-sampling are evaluated as the machine does them, and
      with the exact rationals [Qc], for the algebra of the transforms.
    - Exceptions leave the state as it was when they were thrown: a
      computation returns its result together with the state reached.  The
      result is [Undefined] where C++ gives the operation no meaning (the
      conversion to Int64 of a value that is not finite or out of range).
    - The tensor engine, the hash table and the accessors of [PointCloud.h]
      are not part of the file: they are modelled from their contract. *)

From Stdlib Require Import ZArith QArith Qcanon SpecFloat Lia.
From stdpp Require Import base list strings gmap.

(** ** Element types *)

(** The operations the tensor engine applies element by element.
    [f_to_int64] is the C++ conversion [static_cast<int64_t>(x)] performed by
    [Tensor::To(Dtype::Int64)]: it is [None] where C++ leaves the conversion
    undefined. *)
Class Scalar (F : Type) := {
  f_zero : F;
  f_add : F → F → F;
  f_sub : F → F → F;
  f_mul : F → F → F;
  f_div : F → F → F;
  f_of_int64 : Z → F;
  f_to_int64 : F → option Z
}.

Definition int64_min : Z := - 2 ^ 63.
Definition int64_max : Z := 2 ^ 63 - 1.
Definition in_int64 (z : Z) : bool := (int64_min <=? z)%Z && (z <=? int64_max)%Z.

(** *** IEEE binary64 *)

Definition binary64 : Type := spec_float.

Definition b64_of_Z (z : Z) : binary64 := binary_normalize 53 1024 z 0 false.

(** The integer part of a finite double, fraction discarded (rounding toward
    zero); no integer for infinities and NaN. *)
Definition b64_trunc (x : binary64) : option Z :=
  match x with
  | S754_zero _ => Some 0%Z
  | S754_finite s m e =>
      let mag := if (0 <=? e)%Z then Z.shiftl (Zpos m) e
                 else Z.shiftr (Zpos m) (- e) in
      Some (if s then (- mag)%Z else mag)
  | S754_infinity _ | S754_nan => None
  end.

(** The arithmetic floor of a finite double: the greatest integer below or
    equal to it. *)
Definition b64_floor (x : binary64) : option Z :=
  match x with
  | S754_zero _ => Some 0%Z
  | S754_finite s m e =>
      if (0 <=? e)%Z then
        let mag := Z.shiftl (Zpos m) e in
        Some (if s then (- mag)%Z else mag)
      else
        let mag := Z.shiftr (Zpos m) (- e) in
        let exact := (Z.land (Zpos m) (Z.ones (- e)) =? 0)%Z in
        Some (if s then (if exact then - mag else - mag - 1)%Z else mag)
  | S754_infinity _ | S754_nan => None
  end.

Definition b64_to_int64 (x : binary64) : option Z :=
  match b64_trunc x with
  | Some z => if in_int64 z then Some z else None
  | None => None
  end.

#[global] Instance binary64_Scalar : Scalar binary64 := {|
  f_zero := S754_zero false;
  f_add := SFadd 53 1024;
  f_sub := SFsub 53 1024;
  f_mul := SFmul 53 1024;
  f_div := SFdiv 53 1024;
  f_of_int64 := b64_of_Z;
  f_to_int64 := b64_to_int64
|}.

(** The double nearest to the decimal [n / d], as a C++ literal denotes it. *)
Definition b64_lit (n d : Z) : binary64 := SFdiv 53 1024 (b64_of_Z n) (b64_of_Z d).

(** *** Exact rationals *)

Definition Qc_of_Z (z : Z) : Qc := Q2Qc (inject_Z z).

Definition Qc_trunc (q : Qc) : Z := Z.quot (Qnum (this q)) (Zpos (Qden (this q))).

Definition Qc_to_int64 (q : Qc) : option Z :=
  if in_int64 (Qc_trunc q) then Some (Qc_trunc q) else None.

#[global] Instance Qc_Scalar : Scalar Qc := {|
  f_zero := Qc_of_Z 0;
  f_add := Qcplus;
  f_sub := Qcminus;
  f_mul := Qcmult;
  f_div := Qcdiv;
  f_of_int64 := Qc_of_Z;
  f_to_int64 := Qc_to_int64
|}.

(** ** Errors and computations *)

(** The error taxonomy; [OutOfRange] is [std::out_of_range], thrown by
    [std::unordered_map::at]. *)
Inductive Error :=
  | MissingAttribute
  | ShapeMismatch
  | DeviceMismatch
  | EngineFailure
  | InvalidArgument
  | OutOfRange.

Inductive Res (A : Type) :=
  | Ok (a : A)
  | Throw (e : Error)
  | Undefined.
Arguments Ok {A} a.
Arguments Throw {A} e.
Arguments Undefined {A}.

#[global] Instance Res_ret : MRet Res := λ A a, Ok a.
#[global] Instance Res_bind : MBind Res := λ A B f r,
  match r with
  | Ok a => f a
  | Throw e => Throw e
  | Undefined => Undefined
  end.

(** A computation over a state [S]: the state component of the answer is the
    state at the point where the computation stopped. *)
Definition M (S A : Type) : Type := S → Res A * S.

#[global] Instance M_ret S : MRet (M S) := λ A a s, (Ok a, s).
#[global] Instance M_bind S : MBind (M S) := λ A B f m s,
  match m s with
  | (Ok a, s') => f a s'
  | (Throw e, s') => (Throw e, s')
  | (Undefined, s') => (Undefined, s')
  end.

Definition lift {S A} (r : Res A) : M S A := λ s, (r, s).

(** ** Tensors *)

Inductive Device :=
  | CPU (id : nat)
  | CUDA (id : nat).

#[global] Instance Device_eq_dec : EqDecision Device.
Proof. solve_decision. Defined.

(** A tensor is a handle: copying it copies the handle and shares the blob. *)
Record Tensor := {
  shape_ : list nat;
  blob_ : nat;
  tensor_device : Device
}.

Definition GetShape (t : Tensor) : list nat := shape_ t.
Definition GetDevice (t : Tensor) : Device := tensor_device t.

(** Modelled from the spec: [Tensor::AssertShape] of the tensor engine,
    which reports [ShapeMismatch] unless the shape is exactly the expected
    one. *)
Definition AssertShape (t : Tensor) (expected : list nat) : Res unit :=
  if decide (GetShape t = expected) then Ok () else Throw ShapeMismatch.

(** Modelled from the spec: [Tensor::AssertDevice] of the tensor engine,
    which reports [DeviceMismatch] unless the tensor is on device [d]. *)
Definition AssertDevice (t : Tensor) (d : Device) : Res unit :=
  if decide (GetDevice t = d) then Ok () else Throw DeviceMismatch.

(** Modelled from the spec: compatibility of a shape with a dynamic shape
    such as [{nullopt, 3}] (same rank, equal dimensions where one is
    given), as [Tensor::AssertShapeCompatible] of the tensor engine checks
    it. *)
Fixpoint shape_compatible (s : list nat) (dyn : list (option nat)) : bool :=
  match s, dyn with
  | [], [] => true
  | n :: s', None :: dyn' => shape_compatible s' dyn'
  | n :: s', Some k :: dyn' => bool_decide (n = k) && shape_compatible s' dyn'
  | _, _ => false
  end.

(** Modelled from the spec: [Tensor::AssertShapeCompatible] of the tensor
    engine, which reports [ShapeMismatch]. *)
Definition AssertShapeCompatible (t : Tensor) (dyn : list (option nat)) : Res unit :=
  if shape_compatible (GetShape t) dyn then Ok () else Throw ShapeMismatch.

(** ** The attribute bundle *)

Record PointCloud := {
  device_ : Device;
  point_attr_ : gmap string Tensor
}.

(** [std::unordered_map::at]. *)
Definition at_ (m : gmap string Tensor) (key : string) : Res Tensor :=
  match m !! key with
  | Some t => Ok t
  | None => Throw OutOfRange
  end.

(** [std::unordered_map::count]. *)
Definition count (m : gmap string Tensor) (key : string) : nat :=
  match m !! key with
  | Some _ => 1
  | None => 0
  end.

(** [std::unordered_map::emplace]: no effect when the key is taken. *)
Definition emplace (key : string) (t : Tensor) (m : gmap string Tensor)
  : gmap string Tensor :=
  match m !! key with
  | Some _ => m
  | None => <[key := t]> m
  end.

(** [PointCloud(const core::Device &)]: an empty [TensorMap("points")]. *)
Definition PointCloud_from_device (d : Device) : PointCloud :=
  {| device_ := d; point_attr_ := ∅ |}.

(** [PointCloud(const core::Tensor &points)]. *)
Definition PointCloud_from_points (points : Tensor) : Res PointCloud :=
  let this := PointCloud_from_device (GetDevice points) in
  AssertShapeCompatible points [None; Some 3];;
  Ok {| device_ := device_ this;
        point_attr_ := <["points" := points]> (point_attr_ this) |}.

(** [PointCloud(const std::unordered_map<std::string, core::Tensor> &)].
    The delegating initializer [map.at("points").GetDevice()] runs before the
    body. *)
Definition PointCloud_from_map (map_keys_to_tensors : gmap string Tensor)
  : Res PointCloud :=
  p ← at_ map_keys_to_tensors "points";
  let this := PointCloud_from_device (GetDevice p) in
  (if decide (count map_keys_to_tensors "points" = 0)
   then Throw MissingAttribute else Ok ());;
  p' ← at_ map_keys_to_tensors "points";
  AssertShapeCompatible p' [None; Some 3];;
  Ok {| device_ := device_ this; point_attr_ := map_keys_to_tensors |}.

(** ** Tensor values and the engine's operations *)

(** The content of a tensor: its shape and its rows along the first
    dimension, every row flattened in row-major order.  A tensor of shape
    [[3]] has three rows of one element, one of shape [[N; 3]] has [N] rows
    of three. *)
Record TVal (E : Type) := {
  vshape : list nat;
  vrows : list (list E)
}.
Arguments vshape {E} t.
Arguments vrows {E} t.

(** Modelled from the spec: row-gather by a boolean mask along the first
    dimension, the rows whose mask is true, in their order (the tensor
    engine's [IndexGet]). *)
Fixpoint select {A : Type} (masks : list bool) (rows : list A) : list A :=
  match masks, rows with
  | b :: masks', r :: rows' =>
      if b then r :: select masks' rows' else select masks' rows'
  | _, _ => []
  end.

(** Modelled from the spec: [Tensor::IndexGet({masks})] of the tensor
    engine. *)
Definition IndexGet {E : Type} (masks : list bool) (x : TVal E) : TVal E :=
  let rows := select masks (vrows x) in
  {| vshape := length rows :: tail (vshape x); vrows := rows |}.

(** Modelled from the spec: the hash-table engine ([core::Hashmap]).
    [Activate] inserts the rows of the key tensor and returns, per row, the
    claimed mask: exactly one row per distinct key is marked true, and which
    row wins among duplicates is up to the engine.  The slot addresses it also
    returns are never read by this file. *)
Record Hashmap := {
  Activate : list (list Z) → list bool;
  Activate_length : ∀ keys, length (Activate keys) = length keys;
  Activate_claimed : ∀ keys k, k ∈ keys →
    ∃ i, keys !! i = Some k ∧ Activate keys !! i = Some true ∧
         ∀ j, keys !! j = Some k → Activate keys !! j = Some true → j = i
}.

(** The insertion that runs the rows in order: the first row of every key
    claims it. *)
Fixpoint Activate_in_order (seen keys : list (list Z)) : list bool :=
  match keys with
  | [] => []
  | k :: keys' =>
      if decide (k ∈ seen) then false :: Activate_in_order seen keys'
      else true :: Activate_in_order (k :: seen) keys'
  end.

Section Engine.
Context {F : Type} `{Scalar F}.

(** Column [j] of a list of rows, a sum and a scalar product, as the
    operations below use them. *)
Definition col (j : nat) (rows : list (list F)) : list F :=
  map (λ r, nth j r f_zero) rows.

Definition sum (l : list F) : F := foldl f_add f_zero l.

Definition dot (a b : list F) : F := sum (zip_with f_mul a b).

(** Modelled from the spec: [Tensor::Slice(dim, start, stop)] of the tensor
    engine, along the first or the second dimension. *)
Definition Slice (dim start stop : nat) (x : TVal F) : TVal F :=
  match dim, vshape x with
  | 0, _ :: s =>
      {| vshape := (stop - start) :: s;
         vrows := take (stop - start) (drop start (vrows x)) |}
  | 1, [r; _] =>
      {| vshape := [r; stop - start];
         vrows := map (λ row, take (stop - start) (drop start row)) (vrows x) |}
  | _, _ => x
  end.

(** Modelled from the spec: [Tensor::T()] of the tensor engine, the
    transpose of a matrix. *)
Definition T (x : TVal F) : TVal F :=
  match vshape x with
  | [r; c] => {| vshape := [c; r];
                 vrows := map (λ j, col j (vrows x)) (seq 0 c) |}
  | _ => x
  end.

(** Modelled from the spec: [Tensor::Matmul] of the tensor engine, the
    product of an [[m; k]] by a [[k; n]] matrix. *)
Definition Matmul (a b : TVal F) : TVal F :=
  match vshape a, vshape b with
  | [m; _], [_; n] =>
      {| vshape := [m; n];
         vrows := map (λ ar, map (λ j, dot ar (col j (vrows b))) (seq 0 n))
                      (vrows a) |}
  | _, _ => a
  end.

(** Modelled from the spec: element-wise arithmetic of the tensor engine,
    [x op y] with [y] broadcast to the shape of [x], on the shapes this file
    uses: a vector of shape [[w]] against the rows of an [[N; w]] tensor, a
    column of shape [[r; 1]] against the columns of an [[r; N]] tensor, and
    equal shapes element by element. *)
Definition broadcast (op : F → F → F) (x y : TVal F) : TVal F :=
  {| vshape := vshape x;
     vrows :=
       match vshape x, vshape y with
       | [_; _], [_] =>
           map (λ row, zip_with op row (concat (vrows y))) (vrows x)
       | [_; _], [_; 1] =>
           zip_with (λ row c, map (λ e, op e (nth 0 c f_zero)) row)
                    (vrows x) (vrows y)
       | _, _ => zip_with (zip_with op) (vrows x) (vrows y)
       end |}.

(** Modelled from the spec: element-wise arithmetic of the tensor engine
    with a scalar operand ([tensor / voxel_size], [tensor * voxel_size],
    [Mul_(scale)]). *)
Definition scalar_op (op : F → F → F) (x : TVal F) (s : F) : TVal F :=
  {| vshape := vshape x; vrows := map (map (λ e, op e s)) (vrows x) |}.

(** Modelled from the spec: [Tensor::Mean({0})] of the tensor engine, the
    mean over the first axis. *)
Definition Mean (x : TVal F) : TVal F :=
  let w := foldr Nat.mul 1 (tail (vshape x)) in
  let n := f_of_int64 (Z.of_nat (length (vrows x))) in
  {| vshape := tail (vshape x);
     vrows := map (λ j, [f_div (sum (col j (vrows x))) n]) (seq 0 w) |}.

(** Modelled from the spec: the type cast [Tensor::To(Dtype::Int64)] of the
    tensor engine, element by element; it has no value when the conversion of
    an element is undefined. *)
Definition To_Int64 (x : TVal F) : option (TVal Z) :=
  rows ← mapM (mapM f_to_int64) (vrows x);
  Some {| vshape := vshape x; vrows := rows |}.

(** Modelled from the spec: the type cast [Tensor::To] of the tensor engine
    from Int64 back to the element type of the points. *)
Definition To_Float (x : TVal Z) : TVal F :=
  {| vshape := vshape x; vrows := map (map f_of_int64) (vrows x) |}.

(** ** The state: the heap of blobs and the point cloud [*this] *)

Record World := {
  heap : list (list (list F));
  self : PointCloud
}.

(** The value a handle denotes: its shape with the rows of its blob. *)
Definition read (t : Tensor) : M World (TVal F) := λ σ,
  (Ok {| vshape := shape_ t; vrows := default [] (heap σ !! blob_ t) |}, σ).

(** An in-place write: the blob of the handle is overwritten, and every
    handle that shares the blob sees the new rows. *)
Definition write (t : Tensor) (x : TVal F) : M World unit := λ σ,
  (Ok (), {| heap := <[blob_ t := vrows x]> (heap σ); self := self σ |}).

(** A result the code keeps gets a fresh blob.  Temporaries that are read
    once and dropped stay values; a view of a temporary that is the only
    reference left to it (the [.T()] of a product) is a tensor on a fresh blob
    holding the rows of the view. *)
Definition alloc (d : Device) (x : TVal F) : M World Tensor := λ σ,
  (Ok {| shape_ := vshape x; blob_ := length (heap σ); tensor_device := d |},
   {| heap := heap σ ++ [vrows x]; self := self σ |}).

(** The in-place operators [Add_]/[+=], [Sub_]/[-=], [Mul_]: they write
    through the handle into its blob. *)
Definition Add_ (t : Tensor) (y : TVal F) : M World unit :=
  x ← read t; write t (broadcast f_add x y).

Definition Sub_ (t : Tensor) (y : TVal F) : M World unit :=
  x ← read t; write t (broadcast f_sub x y).

Definition Mul_ (t : Tensor) (s : F) : M World unit :=
  x ← read t; write t (scalar_op f_mul x s).

(** Modelled from the spec: the accessor [GetPointAttr] declared in
    [PointCloud.h]; [Get<X>] returns the current array of that name, looked
    up with [at]. *)
Definition GetPointAttr (key : string) : M World Tensor := λ σ,
  (at_ (point_attr_ (self σ)) key, σ).

(** Modelled from the spec: [HasPointAttr] declared in [PointCloud.h];
    [Has<X>] is an existence query without side effects. *)
Definition HasPointAttr (key : string) : M World bool := λ σ,
  (Ok (bool_decide (is_Some (point_attr_ (self σ) !! key))), σ).

(** Modelled from the spec: the assignment [points = ...] through the
    reference that [Get<X>] returns (declared in [PointCloud.h]), which
    replaces the bundle's entry as a whole. *)
Definition assign (key : string) (t : Tensor) : M World unit := λ σ,
  (Ok (), {| heap := heap σ;
             self := {| device_ := device_ (self σ);
                        point_attr_ := <[key := t]> (point_attr_ (self σ)) |} |}).

(** Modelled from the spec: [GetPoints], [GetPointNormals] and
    [HasPointNormals] declared in [PointCloud.h], the accessors above at the
    keys "points" and "normals". *)
Definition GetPoints : M World Tensor := GetPointAttr "points".
Definition GetPointNormals : M World Tensor := GetPointAttr "normals".
Definition HasPointNormals : M World bool := HasPointAttr "normals".

(** The member [device_]. *)
Definition this_device : M World Device := λ σ, (Ok (device_ (self σ)), σ).

(** [GetCenter]: [GetPoints().Mean({0})]. *)
Definition GetCenter : M World (TVal F) :=
  points ← GetPoints; pv ← read points; mret (Mean pv).

(** ** The transforms *)

(** [Transform]: in [points = (R.Matmul(points.T())).Add_(t).T()] the
    product is a temporary, [Add_] adds the column [t] to it, and its
    transpose is assigned to the bundle's entry; the same without [t] for the
    normals. *)
Definition Transform (transformation : Tensor) : M World unit :=
  lift (AssertShape transformation [4; 4]);;
  d ← this_device; lift (AssertDevice transformation d);;
  m ← read transformation;
  let R := Slice 1 0 3 (Slice 0 0 3 m) in
  let t := Slice 1 3 4 (Slice 0 0 3 m) in
  points ← GetPoints;
  pv ← read points;
  new_points ← alloc d (T (broadcast f_add (Matmul R (T pv)) t));
  assign "points" new_points;;
  has_normals ← HasPointNormals;
  if (has_normals : bool) return M World unit then
    normals ← GetPointNormals;
    nv ← read normals;
    new_normals ← alloc d (T (Matmul R (T nv)));
    assign "normals" new_normals
  else mret ().

(** [Translate]: [core::Tensor transform = translation] copies the handle,
    so [transform -= GetCenter()] writes into the blob of the argument;
    [GetPoints() += transform] writes into the blob of the points. *)
Definition Translate (translation : Tensor) (relative : bool) : M World unit :=
  lift (AssertShape translation [3]);;
  d ← this_device; lift (AssertDevice translation d);;
  let transform := translation in
  (if negb relative return M World unit
   then c ← GetCenter; Sub_ transform c else mret ());;
  points ← GetPoints;
  tv ← read transform;
  Add_ points tv.

(** [Scale]: [core::Tensor points = GetPoints()] copies the handle; the three
    in-place operations write into the blob of the bundle's points. *)
Definition Scale (scale : F) (center : Tensor) : M World unit :=
  lift (AssertShape center [3]);;
  d ← this_device; lift (AssertDevice center d);;
  points ← GetPoints;
  c ← read center; Sub_ points c;;
  Mul_ points scale;;
  c' ← read center; Add_ points c'.

(** [Rotate]: [points.Sub_(center)] writes into the current blob of the
    points; the product with [Rot], transposed and shifted back by [center],
    is then assigned to the bundle's entry. *)
Definition Rotate (R center : Tensor) : M World unit :=
  lift (AssertShape R [3; 3]);;
  d ← this_device; lift (AssertDevice R d);;
  lift (AssertShape center [3]);;
  lift (AssertDevice center d);;
  let Rot := R in
  points ← GetPoints;
  c ← read center; Sub_ points c;;
  pv ← read points;
  rv ← read Rot;
  c' ← read center;
  new_points ← alloc d (broadcast f_add (T (Matmul rv (T pv))) c');
  assign "points" new_points;;
  has_normals ← HasPointNormals;
  if (has_normals : bool) return M World unit then
    normals ← GetPointNormals;
    nv ← read normals;
    rv' ← read Rot;
    new_normals ← alloc d (T (Matmul rv' (T nv)));
    assign "normals" new_normals
  else mret ().

(** ** Voxel down-sampling *)

Context (hashmap : Hashmap).

(** The loop over [point_attr_]: every attribute other than "points" is
    gathered at the same mask and emplaced. *)
Fixpoint gather_attrs (masks : list bool) (kvs : list (string * Tensor))
    (pcd_down_map : gmap string Tensor) : M World (gmap string Tensor) :=
  match kvs with
  | [] => mret pcd_down_map
  | (key, t) :: kvs' =>
      if decide (key ≠ "points") return M World (gmap string Tensor) then
        v ← read t;
        point_attr ← alloc (GetDevice t) (IndexGet masks v);
        gather_attrs masks kvs' (emplace key point_attr pcd_down_map)
      else gather_attrs masks kvs' pcd_down_map
  end.

(** [VoxelDownSample]: quantize, claim one row per cell, rebuild the points
    from the claimed cells, gather the other attributes, construct the
    result.  The hash table is a parameter: the code creates it with the
    number of points as capacity. *)
Definition VoxelDownSample (voxel_size : F) : M World PointCloud :=
  pts ← GetPoints;
  pv ← read pts;
  let points_voxeld := scalar_op f_div pv voxel_size in
  points_voxeli ← (λ σ, (match To_Int64 points_voxeld with
                          | Some x => Ok x
                          | None => Undefined
                          end, σ));
  let masks := Activate hashmap (vrows points_voxeli) in
  let points := scalar_op f_mul (To_Float (IndexGet masks points_voxeli))
                          voxel_size in
  p ← alloc (GetDevice pts) points;
  let pcd_down_map := emplace "points" p ∅ in
  attrs ← (λ σ, (Ok (map_to_list (point_attr_ (self σ))), σ));
  pcd_down_map' ← gather_attrs masks attrs pcd_down_map;
  lift (PointCloud_from_map pcd_down_map').

End Engine.

Arguments World F : clear implicits.

(** ** Vocabulary of the statements *)

Section Vocabulary.
Context {F : Type} `{Scalar F}.

(** The value a handle denotes when its blob holds [rows]. *)
Definition tval (t : Tensor) (rows : list (list F)) : TVal F :=
  {| vshape := shape_ t; vrows := rows |}.

(** The rows the bundle of [σ] holds under [key]. *)
Definition attr_rows (σ : World F) (key : string) : option (list (list F)) :=
  match point_attr_ (self σ) !! key with
  | Some t => heap σ !! blob_ t
  | None => None
  end.

(** The same for a bundle [pc] other than [*this], over the heap of [σ]. *)
Definition bundle_rows (σ : World F) (pc : PointCloud) (key : string)
  : option (list (list F)) :=
  match point_attr_ pc !! key with
  | Some t => heap σ !! blob_ t
  | None => None
  end.

(** The number of points of [pc]. *)
Definition point_count (σ : World F) (pc : PointCloud) : option nat :=
  length <$> bundle_rows σ pc "points".

(** [σ] with [pc] in the place of [*this]. *)
Definition with_self (σ : World F) (pc : PointCloud) : World F :=
  {| heap := heap σ; self := pc |}.

Definition rows_of_width (w : nat) (P : list (list F)) : Prop :=
  Forall (λ r, length r = w) P.

(** Every handle of the bundle points into the heap. *)
Definition wf_bundle (σ : World F) : Prop :=
  ∀ k t, point_attr_ (self σ) !! k = Some t → blob_ t < length (heap σ).

(** The attributes of the bundle are row-aligned: each is held in the heap
    with [n] rows. *)
Definition row_aligned (σ : World F) (n : nat) : Prop :=
  ∀ k t, point_attr_ (self σ) !! k = Some t →
         ∃ R, heap σ !! blob_ t = Some R ∧ length R = n.

(** The points and the normals of the bundle, where present, are N x 3
    arrays held in the heap, on the device of the bundle. *)
Definition well_shaped (σ : World F) : Prop :=
  ∀ key t, key = "points" ∨ key = "normals" →
    point_attr_ (self σ) !! key = Some t →
    GetDevice t = device_ (self σ)
    ∧ ∃ R, heap σ !! blob_ t = Some R ∧ shape_ t = [length R; 3]
           ∧ rows_of_width 3 R.

(** A tensor argument of the expected shape on the device of the bundle. *)
Definition arg_ok (σ : World F) (t : Tensor) (shape : list nat) : Prop :=
  GetShape t = shape ∧ GetDevice t = device_ (self σ).

(** The answer of a call that failed validation in state [σ]. *)
Definition rejected {A} (r : Res A * World F) (σ : World F) : Prop :=
  ∃ e, (e = ShapeMismatch ∨ e = DeviceMismatch) ∧ r = (Throw e, σ).

(** A computation whose only exceptions satisfy [ok]. *)
Definition throws_only {A} (ok : Error → Prop) (m : M (World F) A) : Prop :=
  ∀ σ e σ', m σ = (Throw e, σ') → ok e.

Definition vadd (a b : list F) : list F := zip_with f_add a b.
Definition vsub (a b : list F) : list F := zip_with f_sub a b.

(** A vector as the rows of a tensor of shape [[3]]. *)
Definition as_column (v : list F) : list (list F) := map (λ x, [x]) v.

(** The mean of the points over the point axis. *)
Definition centroid (P : list (list F)) : list F :=
  map (λ j, f_div (sum (col j P)) (f_of_int64 (Z.of_nat (length P)))) (seq 0 3).

(** [R·p] and [R·p + t]. *)
Definition matvec (R : list (list F)) (p : list F) : list F :=
  map (λ r, dot r p) R.

Definition affine (R : list (list F)) (t p : list F) : list F :=
  vadd (matvec R p) t.

(** The blocks [M[0:3,0:3]] and [M[0:3,3:4]] of a 4 x 4 matrix. *)
Definition rotation_block (M : list (list F)) : list (list F) :=
  map (take 3) (take 3 M).

Definition translation_block (M : list (list F)) : list F :=
  map (λ row, nth 3 row f_zero) (take 3 M).

(** The integer cells of the points, and the anchor of a cell. *)
Definition quantize (voxel_size : F) (P : list (list F)) : option (list (list Z)) :=
  mapM (mapM f_to_int64) (map (map (λ e, f_div e voxel_size)) P).

Definition anchors (voxel_size : F) (cells : list (list Z)) : list (list F) :=
  map (map (λ k, f_mul (f_of_int64 k) voxel_size)) cells.

End Vocabulary.

(** ** Observations and example inputs *)

Section Observations.
Context {F : Type} `{Scalar F}.

(** The points a run returns, and the point counts of a run and of a second
    run on its output. *)
Definition VoxelDownSample_points (hashmap : Hashmap) (voxel_size : F)
    (σ : World F) : option (list (list F)) :=
  match VoxelDownSample hashmap voxel_size σ with
  | (Ok out, σ') => bundle_rows σ' out "points"
  | _ => None
  end.

Definition VoxelDownSample_twice (hashmap : Hashmap) (voxel_size : F)
    (σ : World F) : option (nat * nat) :=
  match VoxelDownSample hashmap voxel_size σ with
  | (Ok out1, σ1) =>
      match VoxelDownSample hashmap voxel_size (with_self σ1 out1) with
      | (Ok out2, σ2) =>
          match point_count σ1 out1, point_count σ2 out2 with
          | Some n1, Some n2 => Some (n1, n2)
          | _, _ => None
          end
      | _ => None
      end
  | _ => None
  end.

(** A world whose bundle holds the points [P] in blob 0, followed by the
    blobs [more]. *)
Definition cloud_of (P : list (list F)) (more : list (list (list F))) : World F :=
  {| heap := P :: more;
     self := {| device_ := CPU 0;
                point_attr_ :=
                  {[ "points" := {| shape_ := [length P; 3]; blob_ := 0;
                                    tensor_device := CPU 0 |} ]} |} |}.

(** The same with a second attribute of three columns in blob 1. *)
Definition cloud_with (key : string) (P A : list (list F))
    (more : list (list (list F))) : World F :=
  {| heap := P :: A :: more;
     self := {| device_ := CPU 0;
                point_attr_ :=
                  <[ key := {| shape_ := [length A; 3]; blob_ := 1;
                               tensor_device := CPU 0 |} ]>
                  {[ "points" := {| shape_ := [length P; 3]; blob_ := 0;
                                    tensor_device := CPU 0 |} ]} |} |}.

Definition row_alignedb (σ : World F) (n : nat) : bool :=
  forallb (λ kt : string * Tensor,
             match heap σ !! blob_ kt.2 with
             | Some R => length R =? n
             | None => false
             end)
          (map_to_list (point_attr_ (self σ))).

End Observations.

Definition b64 (n : Z) : binary64 := b64_of_Z n.
Definition q (n : Z) : Qc := Qc_of_Z n.

(** (-0.1, 0, 0) *)
Definition cloud_C1 : World binary64 :=
  cloud_of [[b64_lit (-1) 10; b64 0; b64 0]] [].

(** (1.5, 0, 0) *)
Definition cloud_C2 : World binary64 :=
  cloud_of [[b64_lit 15 10; b64 0; b64 0]] [].

(** (0,0,0), (0.1,0,0), (5,5,5) *)
Definition cloud_C4 : World binary64 :=
  cloud_of [[b64 0; b64 0; b64 0];
            [b64_lit 1 10; b64 0; b64 0];
            [b64 5; b64 5; b64 5]] [].

(** The points of [cloud_C4] with colors. *)
Definition cloud_C5 : World binary64 :=
  cloud_with "colors"
    [[b64 0; b64 0; b64 0]; [b64_lit 1 10; b64 0; b64 0]; [b64 5; b64 5; b64 5]]
    [[b64 1; b64 0; b64 0]; [b64 1; b64 0; b64 0]; [b64 0; b64 0; b64 1]] [].



(** (1.4, 0, 0), (2.1, 0, 0) *)
Definition cloud_C9 : World binary64 :=
  cloud_of [[b64_lit 14 10; b64 0; b64 0]; [b64_lit 21 10; b64 0; b64 0]] [].

(** (1, 0, 0), (3, 2, 0) with normals, a translation vector (1, 2, 3) in
    blob 2 and a 4 x 4 matrix (a quarter turn about z and a shift) in blob 3. *)
Definition cloud_Qc : World Qc :=
  cloud_with "normals"
    [[q 1; q 0; q 0]; [q 3; q 2; q 0]]
    [[q 0; q 0; q 1]; [q 1; q 0; q 0]]
    [ [[q 1]; [q 2]; [q 3]];
      [[q 0; q (-1); q 0; q 10];
       [q 1; q 0; q 0; q 20];
       [q 0; q 0; q 1; q 30];
       [q 0; q 0; q 0; q 1]] ].

Definition vector_Qc : Tensor :=
  {| shape_ := [3]; blob_ := 2; tensor_device := CPU 0 |}.

Definition matrix_Qc : Tensor :=
  {| shape_ := [4; 4]; blob_ := 3; tensor_device := CPU 0 |}.
(** ** Vocabulary of the further properties *)

Section TransformVocabulary.
Context {F : Type} `{Scalar F}.

(** [(p - c)·s + c], the image of a point under [Scale]. *)
Definition scaled (s : F) (c p : list F) : list F :=
  vadd (map (λ e, f_mul e s) (vsub p c)) c.

(** [R·(p - c) + c], the image of a point under [Rotate]. *)
Definition rotated (R : list (list F)) (c p : list F) : list F :=
  vadd (matvec R (vsub p c)) c.

(** The attribute [key] of the bundle is an N x 3 array holding [R]. *)
Definition holds_Nx3 (σ : World F) (key : string) (R : list (list F)) : Prop :=
  ∃ t, point_attr_ (self σ) !! key = Some t
       ∧ heap σ !! blob_ t = Some R
       ∧ shape_ t = [length R; 3] ∧ rows_of_width 3 R.

(** The bundle holds the points [P] and the normals [No], if any. *)
Definition cloud_ok (σ : World F) (P : list (list F))
    (No : option (list (list F))) : Prop :=
  holds_Nx3 σ "points" P
  ∧ match No with
    | Some Nr => holds_Nx3 σ "normals" Nr
    | None => point_attr_ (self σ) !! "normals" = None
    end.

End TransformVocabulary.

(** The handles of [m] point to blobs of their own, all in the range
    [lo, hi). *)
Definition own_storage (lo hi : nat) (m : gmap string Tensor) : Prop :=
  (∀ k t, m !! k = Some t → lo ≤ blob_ t < hi)
  ∧ (∀ k1 k2 t1 t2, m !! k1 = Some t1 → m !! k2 = Some t2 →
       blob_ t1 = blob_ t2 → k1 = k2).

(** (1, 0, 0), (3, 2, 0) with normals, the vector (1, 2, 3) in blob 2, a
    3 x 3 matrix (a quarter turn about z) in blob 3 and, in blob 4, the
    4 x 4 matrix of the same turn about the point (1, 2, 3). *)
Definition cloud_Rot : World Qc :=
  cloud_with "normals"
    [[q 1; q 0; q 0]; [q 3; q 2; q 0]]
    [[q 0; q 0; q 1]; [q 1; q 0; q 0]]
    [ [[q 1]; [q 2]; [q 3]];
      [[q 0; q (-1); q 0];
       [q 1; q 0; q 0];
       [q 0; q 0; q 1]];
      [[q 0; q (-1); q 0; q 3];
       [q 1; q 0; q 0; q 1];
       [q 0; q 0; q 1; q 0];
       [q 0; q 0; q 0; q 1]] ].

Definition matrix_Rot : Tensor :=
  {| shape_ := [4; 4]; blob_ := 4; tensor_device := CPU 0 |}.

Definition rotation_Qc : Tensor :=
  {| shape_ := [3; 3]; blob_ := 3; tensor_device := CPU 0 |}.

(** The point (0.1, 0, 0), the vector (0.2, 0, 0) in blob 1 and its
    opposite in blob 2. *)
Definition cloud_shift : World binary64 :=
  cloud_of [[b64_lit 1 10; b64 0; b64 0]]
    [ [[b64_lit 2 10]; [b64 0]; [b64 0]];
      [[b64_lit (-2) 10]; [b64 0]; [b64 0]] ].

Definition shift_there : Tensor :=
  {| shape_ := [3]; blob_ := 1; tensor_device := CPU 0 |}.

Definition shift_back : Tensor :=
  {| shape_ := [3]; blob_ := 2; tensor_device := CPU 0 |}.

(** The bundle of [cloud_Rot] replaced by an empty one. *)
Definition cloud_empty : World Qc :=
  with_self cloud_Rot (PointCloud_from_device (CPU 0)).


Arguments Slice : simpl never.
Arguments T : simpl never.
Arguments Matmul : simpl never.
Arguments broadcast : simpl never.
Arguments scalar_op : simpl never.
Arguments Mean : simpl never.
Arguments To_Int64 : simpl never.
Arguments To_Float : simpl never.
Arguments IndexGet : simpl never.

(** * Properties *)

(** ** Construction from a name-to-array map *)

Lemma PointCloud_from_map_absent (m : gmap string Tensor) :
  m !! "points" = None → PointCloud_from_map m = Throw OutOfRange.
Proof. intros Hm. unfold PointCloud_from_map, at_. by rewrite Hm. Qed.

Lemma PointCloud_from_map_never_MissingAttribute (m : gmap string Tensor) :
  PointCloud_from_map m ≠ Throw MissingAttribute.
Proof.
  unfold PointCloud_from_map, at_, count, AssertShapeCompatible.
  destruct (m !! "points") as [p|]; simpl; [|done].
  destruct (shape_compatible _ _); simpl; done.
Qed.

Lemma shape_compatible_Nx3 (s : list nat) :
  shape_compatible s [None; Some 3] = true ↔ ∃ n, s = [n; 3].
Proof.
  split.
  - destruct s as [|n [|k [|? ?]]]; simpl; try done.
    + rewrite andb_true_r. intros ->%bool_decide_eq_true. by exists n.
    + by rewrite andb_false_r.
  - intros [n ->]. done.
Qed.

Lemma PointCloud_from_map_present (m : gmap string Tensor) (p : Tensor) :
  m !! "points" = Some p →
  PointCloud_from_map m =
    if shape_compatible (GetShape p) [None; Some 3]
    then Ok {| device_ := GetDevice p; point_attr_ := m |}
    else Throw ShapeMismatch.
Proof.
  intros Hm. unfold PointCloud_from_map, at_, count, AssertShapeCompatible.
  rewrite Hm. simpl. by destruct (shape_compatible _ _).
Qed.

(** C3.  A map without "points" (here: only "normals") does not reach the
    check that reports the missing attribute: the lookup [at("points")] of
    the delegating initializer throws [std::out_of_range] first.  With
    "points" present the shape is validated as N x 3 and the device is the
    one of the "points" array. *)
Theorem C3_from_map_without_points :
  PointCloud_from_map
    {[ "normals" := {| shape_ := [2; 3]; blob_ := 0; tensor_device := CPU 0 |} ]}
    = Throw OutOfRange
  ∧ PointCloud_from_map ∅ = Throw OutOfRange
  ∧ (∀ m, m !! "points" = None →
       PointCloud_from_map m = Throw OutOfRange
       ∧ PointCloud_from_map m ≠ Throw MissingAttribute)
  ∧ (∀ m p, m !! "points" = Some p →
       (∀ n, GetShape p = [n; 3] →
          PointCloud_from_map m = Ok {| device_ := GetDevice p; point_attr_ := m |})
       ∧ ((∀ n, GetShape p ≠ [n; 3]) →
          PointCloud_from_map m = Throw ShapeMismatch)).
Proof.
  split; [by apply PointCloud_from_map_absent|].
  split; [by apply PointCloud_from_map_absent|].
  split; [intros m Hm; split|intros m p Hm; split].
  - by apply PointCloud_from_map_absent.
  - apply PointCloud_from_map_never_MissingAttribute.
  - intros n Hn. rewrite (PointCloud_from_map_present m p) by done.
    rewrite Hn. done.
  - intros Hn. rewrite (PointCloud_from_map_present m p) by done.
    destruct (shape_compatible _ _) eqn:E; [|done].
    apply shape_compatible_Nx3 in E as [n E]. by destruct (Hn n).
Qed.

(** ** Exceptions and the state *)

Create HintDb throws.

Section Exceptions.
Context {F : Type} `{Scalar F}.
Implicit Types (σ : World F) (ok : Error → Prop).

Lemma bind_Throw_inv {S A B} (m : M S A) (f : A → M S B) s e s' :
  (m ≫= f) s = (Throw e, s') →
  m s = (Throw e, s') ∨ ∃ a s1, m s = (Ok a, s1) ∧ f a s1 = (Throw e, s').
Proof.
  unfold mbind, M_bind. destruct (m s) as [[a|e'|] s1]; intros Hr.
  - right. by exists a, s1.
  - left. by inversion Hr.
  - done.
Qed.

Lemma lift_bind_Throw_inv {S A B} (r : Res A) (f : A → M S B) s e s' :
  (lift r ≫= f) s = (Throw e, s') →
  (r = Throw e ∧ s' = s) ∨ ∃ a, r = Ok a ∧ f a s = (Throw e, s').
Proof.
  intros [Hr|(a & s1 & Hr & Hf)]%bind_Throw_inv; unfold lift in Hr.
  - left. by inversion Hr.
  - right. inversion Hr; subst. by exists a.
Qed.

Lemma throws_only_elim {A} ok (m : M (World F) A) σ e σ' :
  throws_only ok m → m σ = (Throw e, σ') → ok e.
Proof. intros Hm. apply Hm. Qed.

Lemma throws_only_bind {A B} ok (m : M (World F) A) (f : A → M (World F) B) :
  throws_only ok m → (∀ a, throws_only ok (f a)) → throws_only ok (m ≫= f).
Proof.
  intros Hm Hf σ e σ' [Hr|(a & s1 & _ & Hr)]%bind_Throw_inv.
  - by eapply Hm.
  - by eapply Hf.
Qed.

Lemma throws_only_if {A} ok (b : bool) (m1 m2 : M (World F) A) :
  throws_only ok m1 → throws_only ok m2 →
  throws_only ok (if b return M (World F) A then m1 else m2).
Proof. by destruct b. Qed.

Lemma throws_only_ret {A} ok (a : A) : throws_only (F:=F) ok (mret a).
Proof. intros σ e σ'. unfold mret, M_ret. done. Qed.

Lemma throws_only_read ok t : throws_only (F:=F) ok (read t).
Proof. intros σ e σ'. unfold read. done. Qed.

Lemma throws_only_write ok t x : throws_only (F:=F) ok (write t x).
Proof. intros σ e σ'. unfold write. done. Qed.

Lemma throws_only_alloc ok d x : throws_only (F:=F) ok (alloc d x).
Proof. intros σ e σ'. unfold alloc. done. Qed.

Lemma throws_only_assign ok k t : throws_only (F:=F) ok (assign k t).
Proof. intros σ e σ'. unfold assign. done. Qed.

Lemma throws_only_this_device ok : throws_only (F:=F) ok this_device.
Proof. intros σ e σ'. unfold this_device. done. Qed.

Lemma throws_only_HasPointAttr ok k : throws_only (F:=F) ok (HasPointAttr k).
Proof. intros σ e σ'. unfold HasPointAttr. done. Qed.

Lemma throws_only_GetPointAttr ok k :
  ok OutOfRange → throws_only (F:=F) ok (GetPointAttr k).
Proof.
  intros Hok σ e σ'. unfold GetPointAttr, at_.
  destruct (_ !! k); intros [= <- <-]; done.
Qed.

End Exceptions.

#[global] Hint Resolve throws_only_ret throws_only_read throws_only_write
  throws_only_alloc throws_only_assign throws_only_this_device
  throws_only_HasPointAttr throws_only_GetPointAttr : throws.

Ltac throws_tac :=
  repeat first
    [ apply throws_only_bind; [|intros ?]
    | apply throws_only_if
    | progress (unfold GetPoints, GetPointNormals, HasPointNormals, GetCenter,
                Add_, Sub_, Mul_)
    | solve [auto with throws] ].

(** Evaluation of a computation, one primitive at a time. *)
Ltac run_monad :=
  repeat (progress (
    unfold mbind, M_bind, mret, M_ret, lift, this_device, GetPoints,
      GetPointNormals, HasPointNormals, GetPointAttr, HasPointAttr, GetCenter,
      Add_, Sub_, Mul_, read, write, alloc, assign, at_; cbn)).

Section Validation.
Context {F : Type} `{Scalar F}.
Implicit Types (σ : World F).

Lemma AssertShape_ok t s : GetShape t = s → AssertShape t s = Ok ().
Proof. intros. unfold AssertShape. by rewrite decide_True. Qed.

Lemma AssertDevice_ok t d : GetDevice t = d → AssertDevice t d = Ok ().
Proof. intros. unfold AssertDevice. by rewrite decide_True. Qed.

(** On a bundle whose points and normals are N x 3 arrays on its device, the
    engine's operations are applied to compatible shapes, and the model takes
    them to succeed: after the assertions, what is left of a transform can
    then only fail on a missing attribute. *)
Ltac atomic_tac He Hr :=
  match goal with
  | |- ?s' = ?s =>
      match type of He with
      | ?e = _ ∨ _ =>
          assert (e = OutOfRange) as ->; [|by destruct He];
          eapply (throws_only_elim (λ e, e = OutOfRange)); [|exact Hr];
          throws_tac
      end
  end.

Lemma Transform_atomic (m : Tensor) σ σ' e :
  well_shaped σ →
  Transform m σ = (Throw e, σ') →
  e = ShapeMismatch ∨ e = DeviceMismatch → σ' = σ.
Proof.
  unfold Transform. intros _.
  intros [[_ ->]|([] & _ & Hr)]%lift_bind_Throw_inv He; [done|].
  apply bind_Throw_inv in Hr as [Hr|(d & s1 & [= <- <-] & Hr)]; [done|].
  apply lift_bind_Throw_inv in Hr as [[_ ->]|([] & _ & Hr)]; [done|].
  atomic_tac He Hr.
Qed.

Lemma Translate_atomic (v : Tensor) (relative : bool) σ σ' e :
  well_shaped σ →
  Translate v relative σ = (Throw e, σ') →
  e = ShapeMismatch ∨ e = DeviceMismatch → σ' = σ.
Proof.
  unfold Translate. intros _.
  intros [[_ ->]|([] & _ & Hr)]%lift_bind_Throw_inv He; [done|].
  apply bind_Throw_inv in Hr as [Hr|(d & s1 & [= <- <-] & Hr)]; [done|].
  apply lift_bind_Throw_inv in Hr as [[_ ->]|([] & _ & Hr)]; [done|].
  atomic_tac He Hr.
Qed.

Lemma Scale_atomic (s : F) (c : Tensor) σ σ' e :
  well_shaped σ →
  Scale s c σ = (Throw e, σ') →
  e = ShapeMismatch ∨ e = DeviceMismatch → σ' = σ.
Proof.
  unfold Scale. intros _.
  intros [[_ ->]|([] & _ & Hr)]%lift_bind_Throw_inv He; [done|].
  apply bind_Throw_inv in Hr as [Hr|(d & s1 & [= <- <-] & Hr)]; [done|].
  apply lift_bind_Throw_inv in Hr as [[_ ->]|([] & _ & Hr)]; [done|].
  atomic_tac He Hr.
Qed.

Lemma Rotate_atomic (R c : Tensor) σ σ' e :
  well_shaped σ →
  Rotate R c σ = (Throw e, σ') →
  e = ShapeMismatch ∨ e = DeviceMismatch → σ' = σ.
Proof.
  unfold Rotate. intros _.
  intros [[_ ->]|([] & _ & Hr)]%lift_bind_Throw_inv He; [done|].
  apply bind_Throw_inv in Hr as [Hr|(d & s1 & [= <- <-] & Hr)]; [done|].
  apply lift_bind_Throw_inv in Hr as [[_ ->]|([] & _ & Hr)]; [done|].
  apply lift_bind_Throw_inv in Hr as [[_ ->]|([] & _ & Hr)]; [done|].
  apply lift_bind_Throw_inv in Hr as [[_ ->]|([] & _ & Hr)]; [done|].
  atomic_tac He Hr.
Qed.

Ltac validate_tac :=
  unfold arg_ok, rejected, AssertShape, AssertDevice, lift, this_device,
    mbind, M_bind;
  intros Hbad; simpl;
  repeat (case_decide; simpl; [|by eauto]);
  try (destruct Hbad; by intuition).

Lemma Transform_validates (m : Tensor) σ :
  ¬ arg_ok σ m [4; 4] → rejected (Transform m σ) σ.
Proof. unfold Transform. validate_tac. Qed.

Lemma Translate_validates (v : Tensor) (relative : bool) σ :
  ¬ arg_ok σ v [3] → rejected (Translate v relative σ) σ.
Proof. unfold Translate. validate_tac. Qed.

Lemma Scale_validates (s : F) (c : Tensor) σ :
  ¬ arg_ok σ c [3] → rejected (Scale s c σ) σ.
Proof. unfold Scale. validate_tac. Qed.

Lemma Rotate_validates (R c : Tensor) σ :
  ¬ (arg_ok σ R [3; 3] ∧ arg_ok σ c [3]) → rejected (Rotate R c σ) σ.
Proof. unfold Rotate. validate_tac. Qed.

(** C8.  Transform, Translate, Scale and Rotate check the shape and the
    device of every tensor argument first: an argument that fails a check
    makes the call throw ShapeMismatch or DeviceMismatch in the state it was
    entered in; and on a bundle whose points and normals are N x 3 arrays on
    its device, whenever one of the four throws ShapeMismatch or
    DeviceMismatch the heap and the bundle are exactly as before the call. *)
Theorem C8_validation_precedes_mutation
    (m v c R : Tensor) (relative : bool) (s : F) σ :
  (¬ arg_ok σ m [4; 4] → rejected (Transform m σ) σ)
  ∧ (¬ arg_ok σ v [3] → rejected (Translate v relative σ) σ)
  ∧ (¬ arg_ok σ c [3] → rejected (Scale s c σ) σ)
  ∧ (¬ (arg_ok σ R [3; 3] ∧ arg_ok σ c [3]) → rejected (Rotate R c σ) σ)
  ∧ (well_shaped σ →
     ∀ e σ', e = ShapeMismatch ∨ e = DeviceMismatch →
       (Transform m σ = (Throw e, σ') → σ' = σ)
       ∧ (Translate v relative σ = (Throw e, σ') → σ' = σ)
       ∧ (Scale s c σ = (Throw e, σ') → σ' = σ)
       ∧ (Rotate R c σ = (Throw e, σ') → σ' = σ)).
Proof.
  split; [apply Transform_validates|].
  split; [apply Translate_validates|].
  split; [apply Scale_validates|].
  split; [apply Rotate_validates|].
  intros Hwf e σ' He. repeat split; intros Hr.
  - by eapply Transform_atomic.
  - by eapply Translate_atomic.
  - by eapply Scale_atomic.
  - by eapply Rotate_atomic.
Qed.

End Validation.

(** ** Lists of rows *)

Section Rows.
Context {F : Type} `{Scalar F}.
Implicit Types (P X : list (list F)) (v d : list F).

Lemma nth_map_lt {A B} (f : A → B) (l : list A) (j : nat) (d : B) (d' : A) :
  j < length l → nth j (map f l) d = f (nth j l d').
Proof.
  revert j. induction l as [|x l IH]; intros [|j] Hj; cbn in *; try lia; [done|].
  apply IH. lia.
Qed.

Lemma map_nth_seq {A B} (g : A → B) (d : A) (l : list A) :
  map (λ j, g (nth j l d)) (seq 0 (length l)) = map g l.
Proof.
  induction l as [|x l IH]; [done|]. cbn [length seq map nth]. f_equal.
  rewrite <- seq_shift, map_map. exact IH.
Qed.

Lemma concat_as_column v : concat (as_column v) = v.
Proof. induction v as [|x v IH]; cbn; [done|]. f_equal. exact IH. Qed.

Lemma as_column_width v : rows_of_width 1 (as_column v).
Proof. induction v; constructor; done. Qed.

Lemma zip_with_as_column (op : F → F → F) v d :
  zip_with (zip_with op) (as_column v) (as_column d) = as_column (zip_with op v d).
Proof.
  revert d. induction v as [|x v IH]; intros [|y d]; cbn; try done.
  f_equal. apply IH.
Qed.

(** The blob of a length-3 vector is not the blob of an N x 3 array. *)
Lemma vector_blob_distinct (h : list (list (list F))) (a b : nat) v P :
  h !! a = Some (as_column v) → length v = 3 →
  h !! b = Some P → rows_of_width 3 P → a ≠ b.
Proof.
  intros Ha Hv Hb HP ->. rewrite Ha in Hb. injection Hb as <-.
  destruct v as [|x v]; [done|]. by inversion HP.
Qed.

Lemma Mean_points (p : Tensor) P n :
  shape_ p = [n; 3] →
  Mean (tval p P) = {| vshape := [3]; vrows := as_column (centroid P) |}.
Proof.
  intros Hs. unfold Mean, tval, centroid, as_column. cbn [vshape vrows].
  rewrite Hs. cbn [tail foldr Nat.mul]. by rewrite map_map.
Qed.

Lemma broadcast_vectors (op : F → F → F) (t : Tensor) v (c : TVal F) d :
  shape_ t = [3] → vrows c = as_column d →
  vrows (broadcast op (tval t (as_column v)) c) = as_column (zip_with op v d).
Proof.
  intros Hs Hc. unfold broadcast, tval. cbn [vshape vrows]. rewrite Hs, Hc.
  apply zip_with_as_column.
Qed.

Lemma broadcast_rows (op : F → F → F) (p : Tensor) P n (y : TVal F) d :
  shape_ p = [n; 3] → vshape y = [3] → vrows y = as_column d →
  vrows (broadcast op (tval p P) y) = map (λ q, zip_with op q d) P.
Proof.
  intros Hs Hy Hd. unfold broadcast, tval. cbn [vshape vrows].
  rewrite Hs, Hy, Hd. by rewrite concat_as_column.
Qed.

End Rows.

(** ** Translate *)

Section Translate.
Context {F : Type} `{Scalar F}.
Implicit Types (σ : World F) (P : list (list F)) (v : list F).

(** The state [Translate] leaves: the blob of the argument, then the blob of
    the points, are overwritten in place. *)
Lemma Translate_run σ (tr p : Tensor) (relative : bool) P V :
  arg_ok σ tr [3] →
  point_attr_ (self σ) !! "points" = Some p →
  heap σ !! blob_ p = Some P →
  heap σ !! blob_ tr = Some V →
  blob_ tr ≠ blob_ p →
  let V' := if relative then V
            else vrows (broadcast f_sub (tval tr V) (Mean (tval p P))) in
  Translate tr relative σ =
    (Ok (), {| heap := <[blob_ p := vrows (broadcast f_add (tval p P) (tval tr V'))]>
                         (<[blob_ tr := V']> (heap σ));
               self := self σ |}).
Proof.
  intros [Hs Hd] Hp HP HV Hne V'. unfold Translate. run_monad.
  rewrite (AssertShape_ok _ _ Hs), (AssertDevice_ok _ _ Hd).
  destruct relative; run_monad.
  - repeat first [rewrite Hp | rewrite HP | rewrite HV | progress run_monad].
    subst V'. by rewrite (list_insert_id _ _ _ HV).
  - repeat first [rewrite Hp | rewrite HP | rewrite HV | progress run_monad].
    rewrite list_lookup_insert_ne by done. rewrite HP. cbn.
    rewrite list_lookup_insert_eq by (by eapply lookup_lt_Some). done.
Qed.

(** The same state, with the engine's operations spelled out on the rows. *)
Lemma Translate_state σ (tr p : Tensor) (relative : bool) P v :
  arg_ok σ tr [3] →
  heap σ !! blob_ tr = Some (as_column v) → length v = 3 →
  point_attr_ (self σ) !! "points" = Some p →
  heap σ !! blob_ p = Some P →
  shape_ p = [length P; 3] → rows_of_width 3 P →
  let d := if relative then v else vsub v (centroid P) in
  Translate tr relative σ =
    (Ok (), {| heap := <[blob_ p := map (λ q, vadd q d) P]>
                         (<[blob_ tr := as_column d]> (heap σ));
               self := self σ |}).
Proof.
  intros Harg Hv Hlen Hp HP Hshape Hw d.
  assert (blob_ tr ≠ blob_ p) as Hne by (by eapply vector_blob_distinct).
  rewrite (Translate_run σ tr p relative P (as_column v)) by done.
  destruct Harg as [Hs _]. unfold GetShape in Hs.
  assert ((if relative then as_column v
           else vrows (broadcast f_sub (tval tr (as_column v)) (Mean (tval p P))))
          = as_column d) as ->.
  { subst d. destruct relative; [done|].
    rewrite (Mean_points p P (length P)) by done.
    by rewrite (broadcast_vectors f_sub tr v _ (centroid P)). }
  by rewrite (broadcast_rows f_add p P (length P) _ d).
Qed.

(** C10.  With relative = false the caller's translation tensor is written
    through: after the call its blob holds v minus the centroid the points
    had before the call; with relative = true it still holds v. *)
Theorem C10_Translate_overwrites_argument σ (tr p : Tensor) P v :
  arg_ok σ tr [3] →
  heap σ !! blob_ tr = Some (as_column v) → length v = 3 →
  point_attr_ (self σ) !! "points" = Some p →
  heap σ !! blob_ p = Some P →
  shape_ p = [length P; 3] → rows_of_width 3 P →
  (∃ σ', Translate tr false σ = (Ok (), σ')
         ∧ heap σ' !! blob_ tr = Some (as_column (vsub v (centroid P))))
  ∧ (∃ σ', Translate tr true σ = (Ok (), σ')
           ∧ heap σ' !! blob_ tr = Some (as_column v)).
Proof.
  intros Harg Hv Hlen Hp HP Hshape Hw.
  assert (blob_ tr ≠ blob_ p) as Hne by (by eapply vector_blob_distinct).
  assert (blob_ tr < length (heap σ)) as Hlt by (by eapply lookup_lt_Some).
  split; eexists; (split; [by apply (Translate_state σ tr p _ P v)|]); cbn.
  - rewrite list_lookup_insert_ne by done. by rewrite list_lookup_insert_eq.
  - rewrite list_lookup_insert_ne by done. by rewrite list_lookup_insert_eq.
Qed.


End Translate.

(** ** The centroid after a translation, in exact arithmetic *)

Section Centroid.
Implicit Types (P : list (list Qc)) (v d : list Qc) (l : list Qc).
Local Open Scope Qc_scope.

Lemma Qc_of_Z_plus (a b : Z) : Qc_of_Z (a + b) = Qc_of_Z a + Qc_of_Z b.
Proof.
  unfold Qc_of_Z. apply Qc_is_canon. unfold Qcplus. cbn [this Q2Qc].
  rewrite !Qred_correct. rewrite inject_Z_plus. reflexivity.
Qed.
Lemma Qc_of_Z_succ (n : nat) :
  Qc_of_Z (Z.of_nat (S n)) = Qc_of_Z (Z.of_nat n) + 1.
Proof.
  rewrite Nat2Z.inj_succ. unfold Z.succ. rewrite Qc_of_Z_plus. done.
Qed.
Lemma Qc_of_Z_nonzero (n : nat) : n ≠ 0%nat → Qc_of_Z (Z.of_nat n) ≠ 0.
Proof.
  intros Hn Heq. unfold Qc_of_Z in Heq. apply Q2Qc_eq_iff in Heq.
  unfold Qeq, inject_Z in Heq. cbn in Heq. lia.
Qed.

Lemma Qc_foldl_shift l (a c : Qc) :
  foldl Qcplus (a + c) l = foldl Qcplus a l + c.
Proof.
  revert a. induction l as [|x l IH]; intros a; cbn [foldl]; [done|].
  rewrite <- IH. by replace (a + c + x) with (a + x + c) by ring.
Qed.

Lemma Qc_sum_shift l (d : Qc) :
  sum (map (λ x, x + d) l) = sum l + Qc_of_Z (Z.of_nat (length l)) * d.
Proof.
  unfold sum. cbn [f_add f_zero Qc_Scalar]. generalize (Qc_of_Z 0) as a.
  induction l as [|x l IH]; intros a.
  - cbn [map foldl length]. change (Qc_of_Z (Z.of_nat 0)) with 0. ring.
  - cbn [map foldl length]. rewrite IH, Qc_of_Z_succ.
    replace (a + (x + d)) with (a + x + d) by ring.
    rewrite (Qc_foldl_shift l (a + x) d). ring.
Qed.

Lemma col_translated P d (j : nat) :
  rows_of_width 3 P → length d = 3%nat → (j < 3)%nat →
  col j (map (λ q, vadd q d) P) = map (λ x, x + nth j d 0) (col j P).
Proof.
  intros HP Hd Hj. unfold col. rewrite !map_map.
  induction HP as [|q P Hq HP IH]; [done|]. cbn [map]. f_equal; [|exact IH].
  destruct q as [|a [|b [|c [|? ?]]]]; try done.
  destruct d as [|x [|y [|z [|? ?]]]]; try done.
  destruct j as [|[|[|j]]]; try lia; done.
Qed.

(** Translating every point by [v - centroid] moves the centroid to [v]. *)
Lemma centroid_translated P v :
  P ≠ [] → rows_of_width 3 P → length v = 3%nat →
  centroid (map (λ q, vadd q (vsub v (centroid P))) P) = v.
Proof.
  intros Hne HP Hv.
  assert (Qc_of_Z (Z.of_nat (length P)) ≠ 0) as Hn.
  { apply Qc_of_Z_nonzero. by destruct P. }
  assert (length (vsub v (centroid P)) = 3%nat) as Hd.
  { unfold vsub, centroid. rewrite length_zip_with, List.length_map, length_seq. lia. }
  destruct v as [|x [|y [|z [|? ?]]]]; try done.
  unfold centroid at 1. cbn [seq map]. rewrite !List.length_map.
  rewrite !(col_translated P _ _ HP Hd) by lia.
  rewrite !Qc_sum_shift.
  assert (∀ j, length (col j P) = length P) as Hcol
    by (intros j; apply List.length_map).
  rewrite !Hcol.
  unfold vsub, centroid. cbn [seq map zip_with nth].
  cbn [f_add f_sub f_div f_zero f_of_int64 Qc_Scalar].
  f_equal; [|f_equal; [|f_equal]]; field; exact Hn.
Qed.

End Centroid.


(** ** Transform *)

Section Transform.
Context {F : Type} `{Scalar F}.
Implicit Types (σ : World F) (P X : list (list F)).

Lemma col_transposed X (j : nat) :
  rows_of_width 3 X → j < length X →
  col j (map (λ i, col i X) (seq 0 3)) = nth j X [].
Proof.
  intros HX Hj. cbn [seq map col]. unfold col.
  rewrite !(nth_map_lt _ X j f_zero []) by done.
  assert (length (nth j X []) = 3) as Hl.
  { unfold rows_of_width in HX. rewrite Forall_forall in HX.
    apply HX, list_elem_of_In, nth_In. done. }
  destruct (nth j X []) as [|a [|b [|c [|? ?]]]]; done.
Qed.

Lemma col_of_products {A} (g : A → list F → F) (As : list A) X (i : nat) :
  i < length X →
  col i (map (λ ar, map (g ar) X) As) = map (λ ar, g ar (nth i X [])) As.
Proof.
  intros Hi. unfold col. rewrite map_map. apply map_ext. intros ar.
  by apply nth_map_lt.
Qed.

(** [R.Matmul(x.T())] holds, row by row of [R], the products with the rows
    of [x]. *)
Lemma Matmul_T (a x : TVal F) (m k : nat) :
  vshape a = [m; k] → vshape x = [length (vrows x); 3] →
  rows_of_width 3 (vrows x) →
  Matmul a (T x) =
    {| vshape := [m; length (vrows x)];
       vrows := map (λ ar, map (dot ar) (vrows x)) (vrows a) |}.
Proof.
  intros Ha Hx Hw. unfold Matmul, T. rewrite Ha, Hx. cbn [vshape vrows]. f_equal.
  apply map_ext. intros ar. rewrite <- (map_nth_seq (dot ar) []).
  apply map_ext_in. intros j Hj%in_seq. f_equal. apply col_transposed; [done|lia].
Qed.

Lemma T_Matmul_T (a x : TVal F) (m k : nat) :
  vshape a = [m; k] → vshape x = [length (vrows x); 3] →
  rows_of_width 3 (vrows x) →
  T (Matmul a (T x)) =
    {| vshape := [length (vrows x); m];
       vrows := map (matvec (vrows a)) (vrows x) |}.
Proof.
  intros Ha Hx Hw. rewrite (Matmul_T a x m k) by done.
  unfold T. cbn [vshape vrows]. f_equal.
  rewrite <- (map_nth_seq (matvec (vrows a)) []).
  apply map_ext_in. intros i Hi%in_seq. apply col_of_products. lia.
Qed.

Lemma T_Matmul_T_Add (a x t : TVal F) (m k : nat) :
  vshape a = [m; k] → vshape x = [length (vrows x); 3] →
  rows_of_width 3 (vrows x) →
  vshape t = [m; 1] → rows_of_width 1 (vrows t) →
  T (broadcast f_add (Matmul a (T x)) t) =
    {| vshape := [length (vrows x); m];
       vrows := map (affine (vrows a) (concat (vrows t))) (vrows x) |}.
Proof.
  intros Ha Hx Hw Ht Hwt. rewrite (Matmul_T a x m k) by done.
  unfold broadcast. cbn [vshape vrows]. rewrite Ht. unfold T.
  cbn [vshape vrows]. f_equal.
  rewrite <- (map_nth_seq (affine (vrows a) (concat (vrows t))) []).
  apply map_ext_in. intros i Hi%in_seq.
  unfold affine, vadd, matvec, col.
  generalize (vrows a) as A. induction Hwt as [|c ts Hc Hts IH]; intros A.
  - by destruct A.
  - destruct A as [|ar A]; [done|]. cbn [map zip_with concat].
    destruct c as [|c0 [|? ?]]; try done. cbn [app nth zip_with].
    f_equal; [|apply IH]. rewrite map_map.
    apply (nth_map_lt (λ q, f_add (dot ar q) c0) (vrows x) i f_zero []). lia.
Qed.

Lemma Slice_rotation (m : Tensor) (Mrows : list (list F)) :
  shape_ m = [4; 4] →
  Slice 1 0 3 (Slice 0 0 3 (tval m Mrows)) =
    {| vshape := [3; 3]; vrows := rotation_block Mrows |}.
Proof. intros Hs. unfold Slice, tval. cbn. rewrite Hs. done. Qed.

Lemma Slice_translation (m : Tensor) (Mrows : list (list F)) :
  shape_ m = [4; 4] →
  Slice 1 3 4 (Slice 0 0 3 (tval m Mrows)) =
    {| vshape := [3; 1];
       vrows := map (λ row, take 1 (drop 3 row)) (take 3 Mrows) |}.
Proof. intros Hs. unfold Slice, tval. cbn. rewrite Hs. done. Qed.

Lemma translation_column (Mrows : list (list F)) :
  rows_of_width 4 Mrows →
  rows_of_width 1 (map (λ row, take 1 (drop 3 row)) (take 3 Mrows))
  ∧ concat (map (λ row, take 1 (drop 3 row)) (take 3 Mrows)) =
      translation_block Mrows.
Proof.
  intros Hw. unfold translation_block.
  assert (rows_of_width 4 (take 3 Mrows)) as Hw' by (by apply Forall_take).
  induction Hw' as [|row rows Hrow _ [IH1 IH2]]; [by split; [constructor|]|].
  destruct row as [|a [|b [|c [|d [|? ?]]]]]; try done.
  split; [by constructor|]. cbn. f_equal. exact IH2.
Qed.

(** C7.  Transform(M) on a bundle with N x 3 points: every point p becomes
    R·p + t, with R = M[0:3,0:3] and t = M[0:3,3:4]; normals, when present,
    become R·n without translation; when absent they stay absent. *)
Theorem C7_Transform_points_and_normals σ (m p : Tensor) Mrows P :
  arg_ok σ m [4; 4] →
  heap σ !! blob_ m = Some Mrows → rows_of_width 4 Mrows →
  point_attr_ (self σ) !! "points" = Some p →
  heap σ !! blob_ p = Some P →
  shape_ p = [length P; 3] → rows_of_width 3 P →
  (∀ nt, point_attr_ (self σ) !! "normals" = Some nt →
     ∃ Nr, heap σ !! blob_ nt = Some Nr ∧ shape_ nt = [length Nr; 3]
           ∧ rows_of_width 3 Nr) →
  ∃ σ', Transform m σ = (Ok (), σ')
    ∧ attr_rows σ' "points" =
        Some (map (affine (rotation_block Mrows) (translation_block Mrows)) P)
    ∧ (∀ Nr, attr_rows σ "normals" = Some Nr →
         attr_rows σ' "normals" = Some (map (matvec (rotation_block Mrows)) Nr))
    ∧ (point_attr_ (self σ) !! "normals" = None →
         point_attr_ (self σ') !! "normals" = None).
Proof.
  intros [Hs Hd] HM HwM Hp HP Hshape Hw Hnormals.
  destruct (translation_column Mrows HwM) as [Hcol Hconcat].
  assert (blob_ p < length (heap σ)) as Hlt by (by eapply lookup_lt_Some).
  unfold Transform. run_monad.
  rewrite (AssertShape_ok _ _ Hs), (AssertDevice_ok _ _ Hd). run_monad.
  rewrite Hp, HM, HP. run_monad.
  change {| vshape := shape_ m; vrows := Mrows |} with (tval m Mrows).
  rewrite (Slice_rotation m Mrows Hs), (Slice_translation m Mrows Hs).
  rewrite (T_Matmul_T_Add _ {| vshape := shape_ p; vrows := P |} _ 3 3)
    by done.
  cbn [vshape vrows]. rewrite Hconcat.
  rewrite lookup_insert_ne by done.
  destruct (point_attr_ (self σ) !! "normals") as [nt|] eqn:Hnt; run_monad.
  - destruct (Hnormals nt eq_refl) as (Nr & HNr & Hnshape & Hnw).
    rewrite lookup_insert_ne by done. rewrite Hnt. run_monad.
    assert (blob_ nt < length (heap σ)) as Hlt' by (by eapply lookup_lt_Some).
    rewrite lookup_app_l by done. rewrite HNr. cbn.
    rewrite (T_Matmul_T _ {| vshape := shape_ nt; vrows := Nr |} 3 3) by done.
    eexists. split; [done|]. unfold attr_rows. cbn.
    rewrite lookup_insert_ne by done. rewrite !lookup_insert_eq. cbn.
    rewrite Hnt. split; [|split; [|done]].
    + rewrite <- app_assoc. rewrite lookup_app_r by lia.
      by replace (_ - _) with 0 by lia.
    + intros Nr' HNr'. rewrite HNr in HNr'. injection HNr' as <-.
      rewrite lookup_app_r by (rewrite length_app; cbn; lia).
      rewrite length_app. cbn. by replace (_ - _) with 0 by lia.
  - eexists. split; [done|]. unfold attr_rows. cbn.
    rewrite lookup_insert_eq. cbn. rewrite Hnt.
    rewrite lookup_insert_ne by done. rewrite Hnt.
    split; [|done]. rewrite lookup_app_r by lia.
    by replace (_ - _) with 0 by lia.
Qed.

End Transform.

(** ** Mask selection and the hash table *)

Section SelectLemmas.
Context {A : Type}.
Implicit Types (masks : list bool) (rows : list A).

Lemma select_length_le masks rows : length (select masks rows) ≤ length rows.
Proof.
  revert rows. induction masks as [|b masks IH]; intros [|r rows]; cbn; try lia.
  specialize (IH rows). destruct b; cbn; lia.
Qed.

Lemma elem_of_select masks rows x :
  x ∈ select masks rows ↔ ∃ i, rows !! i = Some x ∧ masks !! i = Some true.
Proof.
  revert rows. induction masks as [|b masks IH]; intros [|r rows]; cbn.
  - split; [by intros ?%elem_of_nil|by intros (i & ? & ?)].
  - split; [by intros ?%elem_of_nil|by intros (i & ? & ?)].
  - split; [by intros ?%elem_of_nil|by intros (i & ? & ?)].
  - destruct b.
    + rewrite elem_of_cons, IH. split.
      * intros [->|(i & ? & ?)]; [by exists 0|by exists (S i)].
      * intros ([|i] & Hr & Hm); cbn in *; [left; congruence|right; eauto].
    + rewrite IH. split.
      * intros (i & ? & ?). by exists (S i).
      * intros ([|i] & Hr & Hm); cbn in *; [congruence|eauto].
Qed.

Lemma NoDup_select masks rows :
  (∀ i j x, rows !! i = Some x → rows !! j = Some x →
            masks !! i = Some true → masks !! j = Some true → i = j) →
  NoDup (select masks rows).
Proof.
  revert rows. induction masks as [|b masks IH]; intros [|r rows] Huniq; cbn;
    try apply NoDup_nil_2.
  assert (NoDup (select masks rows)) as Hnd.
  { apply IH. intros i j x Hi Hj Hmi Hmj.
    specialize (Huniq (S i) (S j) x Hi Hj Hmi Hmj). lia. }
  destruct b; [|done]. apply NoDup_cons_2; [|done].
  intros (i & Hi & Hm)%elem_of_select.
  specialize (Huniq 0 (S i) r eq_refl Hi eq_refl Hm). lia.
Qed.

Lemma select_all_true rows : select (replicate (length rows) true) rows = rows.
Proof. induction rows as [|r rows IH]; cbn; [done|by rewrite IH]. Qed.

Lemma select_length_eq {B} masks rows (rows' : list B) :
  length rows = length rows' →
  length (select masks rows) = length (select masks rows').
Proof.
  revert rows rows'.
  induction masks as [|b masks IH]; intros [|r rows] [|r' rows'] Hlen; cbn in *;
    try done.
  destruct b; cbn; rewrite (IH rows rows') by lia; done.
Qed.
End SelectLemmas.

Section HashmapLemmas.
Context (hashmap : Hashmap).
Implicit Types (keys : list (list Z)).

Lemma Activate_unique keys i j k :
  keys !! i = Some k → keys !! j = Some k →
  Activate hashmap keys !! i = Some true → Activate hashmap keys !! j = Some true →
  i = j.
Proof.
  intros Hi Hj Hmi Hmj.
  destruct (Activate_claimed hashmap keys k) as (i0 & _ & _ & Huniq).
  { by eapply list_elem_of_lookup_2. }
  rewrite (Huniq i), (Huniq j); done.
Qed.

Lemma NoDup_select_Activate keys : NoDup (select (Activate hashmap keys) keys).
Proof. apply NoDup_select. intros i j x. apply Activate_unique. Qed.

Lemma elem_of_select_Activate keys k :
  k ∈ select (Activate hashmap keys) keys ↔ k ∈ keys.
Proof.
  rewrite elem_of_select. split.
  - intros (i & Hi & _). by eapply list_elem_of_lookup_2.
  - intros Hk. destruct (Activate_claimed hashmap keys k Hk) as (i & ? & ? & _).
    by exists i.
Qed.

Lemma select_Activate_Permutation keys :
  select (Activate hashmap keys) keys ≡ₚ remove_dups keys.
Proof.
  apply NoDup_Permutation.
  - apply NoDup_select_Activate.
  - apply NoDup_remove_dups.
  - intros k. by rewrite elem_of_select_Activate, elem_of_remove_dups.
Qed.

Lemma select_Activate_length keys :
  length (select (Activate hashmap keys) keys) = length (remove_dups keys).
Proof. by rewrite select_Activate_Permutation. Qed.

Lemma Activate_NoDup keys :
  NoDup keys → Activate hashmap keys = replicate (length keys) true.
Proof.
  intros Hnd. apply list_eq. intros i.
  destruct (keys !! i) as [k|] eqn:Hk.
  - assert (i < length keys) as Hi by (by eapply lookup_lt_Some).
    rewrite lookup_replicate_2 by done.
    destruct (Activate_claimed hashmap keys k) as (j & Hj & Hm & _).
    { by eapply list_elem_of_lookup_2. }
    by rewrite (NoDup_lookup _ _ _ _ Hnd Hk Hj).
  - apply lookup_ge_None in Hk.
    rewrite (lookup_ge_None_2 (Activate hashmap keys))
      by (by rewrite Activate_length).
    symmetry. apply lookup_ge_None_2. by rewrite length_replicate.
Qed.
End HashmapLemmas.

Section InOrder.
Implicit Types (seen keys : list (list Z)).

Lemma Activate_in_order_length seen keys :
  length (Activate_in_order seen keys) = length keys.
Proof.
  revert seen. induction keys as [|k keys IH]; intros seen; cbn; [done|].
  case_decide; cbn; by rewrite IH.
Qed.

Lemma Activate_in_order_true seen keys i k :
  keys !! i = Some k → Activate_in_order seen keys !! i = Some true →
  (k ∉ seen) ∧ ∀ j, j < i → keys !! j ≠ Some k.
Proof.
  revert seen i. induction keys as [|k0 keys IH]; intros seen [|i]; cbn; try done.
  - intros Heq. injection Heq as ->. case_decide; cbn; [done|].
    intros _. split; [done|lia].
  - intros Hk. case_decide as Hseen; cbn; intros Hm.
    + destruct (IH _ _ Hk Hm) as [Hs Hj]. split; [done|].
      intros [|j] Hlt; cbn; [congruence|]. apply Hj. lia.
    + destruct (IH _ _ Hk Hm) as [Hs Hj].
      apply not_elem_of_cons in Hs as [Hne Hs]. split; [done|].
      intros [|j] Hlt; cbn; [congruence|]. apply Hj. lia.
Qed.

Lemma Activate_in_order_first seen keys k :
  k ∈ keys → k ∉ seen →
  ∃ i, keys !! i = Some k ∧ Activate_in_order seen keys !! i = Some true.
Proof.
  revert seen. induction keys as [|k0 keys IH]; intros seen Hk Hs.
  - by apply elem_of_nil in Hk.
  - cbn. destruct (decide (k = k0)) as [->|Hne].
    + exists 0. by rewrite decide_False.
    + apply elem_of_cons in Hk as [|Hk]; [done|].
      case_decide.
      * destruct (IH seen Hk Hs) as (i & ? & ?). by exists (S i).
      * destruct (IH (k0 :: seen) Hk) as (i & ? & ?).
        { apply not_elem_of_cons. by split. }
        by exists (S i).
Qed.

Lemma Activate_in_order_claimed keys k :
  k ∈ keys →
  ∃ i, keys !! i = Some k ∧ Activate_in_order [] keys !! i = Some true ∧
       ∀ j, keys !! j = Some k → Activate_in_order [] keys !! j = Some true → j = i.
Proof.
  intros Hk. destruct (Activate_in_order_first [] keys k Hk) as (i & Hi & Hm).
  { apply not_elem_of_nil. }
  exists i. split; [done|]. split; [done|]. intros j Hj Hmj.
  destruct (Activate_in_order_true _ _ _ _ Hi Hm) as [_ Hlti].
  destruct (Activate_in_order_true _ _ _ _ Hj Hmj) as [_ Hltj].
  destruct (Nat.lt_trichotomy i j) as [Hlt|[->|Hlt]]; [|done|].
  - by destruct (Hltj i Hlt).
  - by destruct (Hlti j Hlt).
Qed.

Definition in_order_hashmap : Hashmap := {|
  Activate := Activate_in_order [];
  Activate_length := Activate_in_order_length [];
  Activate_claimed := Activate_in_order_claimed
|}.
End InOrder.

(** ** Voxel down-sampling *)

Section VoxelDownSample.
Context {F : Type} `{Scalar F} (hashmap : Hashmap).
Implicit Types (σ : World F) (P : list (list F)) (cells : list (list Z)).

Lemma emplace_lookup key t (m : gmap string Tensor) k :
  emplace key t m !! k =
    match m !! k with
    | Some t' => Some t'
    | None => if decide (k = key) then Some t else None
    end.
Proof.
  unfold emplace. destruct (m !! key) as [t0|] eqn:Hk.
  - destruct (m !! k) eqn:Hk'; [done|]. case_decide; [congruence|done].
  - rewrite lookup_insert. destruct (decide (key = k)) as [->|Hne].
    + rewrite Hk. by rewrite decide_True.
    + destruct (m !! k); [done|]. by rewrite decide_False.
Qed.

Lemma anchors_fused (voxel_size : F) cells :
  map (map (λ e, f_mul e voxel_size)) (map (map f_of_int64) cells) =
  anchors voxel_size cells.
Proof.
  unfold anchors. rewrite map_map. apply map_ext. intros row. by rewrite map_map.
Qed.

Lemma quantize_length (voxel_size : F) P cells :
  quantize voxel_size P = Some cells → length cells = length P.
Proof.
  unfold quantize. intros Hq%length_mapM. by rewrite List.length_map in Hq.
Qed.

(** What the gathering loop leaves: the entries already emplaced stay, every
    attribute of the range other than "points" gets a fresh tensor holding its
    selected rows. *)
Lemma gather_attrs_run (masks : list bool) (kvs : list (string * Tensor)) :
  ∀ (acc : gmap string Tensor) σ (h0 extra : list (list (list F))),
  heap σ = h0 ++ extra →
  (∀ k t, (k, t) ∈ kvs → blob_ t < length h0) →
  NoDup kvs.*1 →
  (∀ k, k ∈ kvs.*1 → k ≠ "points" → acc !! k = None) →
  ∃ acc' news,
    gather_attrs masks kvs acc σ =
      (Ok acc', {| heap := heap σ ++ news; self := self σ |}) ∧
    (∀ k, k ∉ kvs.*1 ∨ k = "points" → acc' !! k = acc !! k) ∧
    (∀ k t, (k, t) ∈ kvs → k ≠ "points" →
       ∃ t', acc' !! k = Some t' ∧
             (heap σ ++ news) !! blob_ t' =
               Some (select masks (default [] (h0 !! blob_ t))) ∧
             shape_ t' = length (select masks (default [] (h0 !! blob_ t)))
                           :: tail (shape_ t) ∧
             tensor_device t' = tensor_device t).
Proof.
  induction kvs as [|[key t] kvs IH]; intros acc σ h0 extra Hh Hblob Hnd Hfresh.
  - exists acc, []. cbn. rewrite app_nil_r. split; [by destruct σ|].
    split; [done|]. intros k t Hin. by apply elem_of_nil in Hin.
  - cbn [gather_attrs]. rewrite fmap_cons in Hnd, Hfresh.
    apply NoDup_cons in Hnd as [Hkey Hnd]. cbn [fst] in Hkey, Hfresh.
    assert (∀ k t', (k, t') ∈ kvs → blob_ t' < length h0) as Hblob'.
    { intros k t' Hin. apply (Hblob k). by right. }
    destruct (decide (key ≠ "points")) as [Hne|Heq].
    + assert (heap σ !! blob_ t = h0 !! blob_ t) as Hread.
      { rewrite Hh. apply lookup_app_l. apply (Hblob key). by left. }
      run_monad. rewrite Hread. unfold IndexGet. cbn [vshape vrows].
      set (rows := select masks (default [] (h0 !! blob_ t))).
      set (t1 := {| shape_ := length rows :: tail (shape_ t);
                    blob_ := length (heap σ); tensor_device := GetDevice t |}).
      set (σ1 := {| heap := heap σ ++ [rows]; self := self σ |}).
      destruct (IH (emplace key t1 acc) σ1 h0 (extra ++ [rows]))
        as (acc' & news & Hrun & Hkeep & Hnew); [| done | done | |].
      { subst σ1. cbn [heap]. by rewrite Hh, app_assoc. }
      { intros k Hk Hkp. rewrite emplace_lookup.
        rewrite Hfresh; [|by right|done].
        rewrite decide_False; [done|]. by intros ->. }
      exists acc', (rows :: news). rewrite Hrun. subst σ1. cbn [heap self].
      rewrite <- app_assoc. cbn [app].
      split; [done|]. split.
      * intros k Hk. rewrite Hkeep.
        -- rewrite emplace_lookup. destruct (acc !! k) eqn:E; [done|].
           rewrite decide_False; [done|]. intros ->.
           destruct Hk as [Hk|Hk]; [|done]. apply Hk. by left.
        -- destruct Hk as [Hk|Hk]; [left|by right]. intros Hin. apply Hk. by right.
      * intros k t' [Heq|Hin]%elem_of_cons Hkp.
        -- inversion Heq; subst k t'. exists t1. split.
           { rewrite Hkeep by (by left). rewrite emplace_lookup.
             rewrite Hfresh; [|by left|done]. by rewrite decide_True. }
           subst t1. cbn [blob_ shape_ tensor_device]. split; [|done].
           rewrite lookup_app_r by lia. by replace (_ - _) with 0 by lia.
        -- destruct (Hnew k t' Hin Hkp) as (t'' & ? & Hl & ? & ?).
           exists t''. split; [done|]. split; [|done].
           cbn [heap] in Hl. by rewrite <- app_assoc in Hl.
    + apply dec_stable in Heq. subst key.
      destruct (IH acc σ h0 extra) as (acc' & news & Hrun & Hkeep & Hnew);
        [done | done | done | |].
      { intros k Hk Hkp. apply Hfresh; [by right|done]. }
      exists acc', news. split; [done|]. split.
      * intros k Hk. apply Hkeep. destruct Hk as [Hk|Hk]; [left|by right].
        intros Hin. apply Hk. by right.
      * intros k t' [Heq|Hin]%elem_of_cons Hkp; [by inversion Heq|]. by apply Hnew.
Qed.

(** The conversion to Int64 is the only step that can be undefined. *)
Lemma VoxelDownSample_undefined σ (voxel_size : F) (p : Tensor) P :
  point_attr_ (self σ) !! "points" = Some p →
  heap σ !! blob_ p = Some P →
  quantize voxel_size P = None →
  VoxelDownSample hashmap voxel_size σ = (Undefined, σ).
Proof.
  intros Hp HP Hq. unfold VoxelDownSample. run_monad.
  rewrite Hp. run_monad. rewrite HP. cbn.
  unfold To_Int64, scalar_op. cbn [vrows vshape].
  unfold quantize in Hq. by rewrite Hq.
Qed.

(** The result of a run on a bundle with N x 3 points whose quotients
    convert to Int64. *)
Lemma VoxelDownSample_run σ (voxel_size : F) (p : Tensor) (n : nat) P cells :
  point_attr_ (self σ) !! "points" = Some p →
  heap σ !! blob_ p = Some P →
  shape_ p = [n; 3] →
  wf_bundle σ →
  quantize voxel_size P = Some cells →
  let masks := Activate hashmap cells in
  ∃ out news,
    VoxelDownSample hashmap voxel_size σ =
      (Ok out, {| heap := heap σ ++ news; self := self σ |}) ∧
    device_ out = GetDevice p ∧
    (∃ t, point_attr_ out !! "points" = Some t ∧
          (heap σ ++ news) !! blob_ t =
            Some (anchors voxel_size (select masks cells)) ∧
          shape_ t = [length (select masks cells); 3] ∧
          tensor_device t = tensor_device p) ∧
    (∀ k t, k ≠ "points" → point_attr_ (self σ) !! k = Some t →
       ∃ t', point_attr_ out !! k = Some t' ∧
             (heap σ ++ news) !! blob_ t' =
               Some (select masks (default [] (heap σ !! blob_ t))) ∧
             shape_ t' = length (select masks (default [] (heap σ !! blob_ t)))
                           :: tail (shape_ t) ∧
             tensor_device t' = tensor_device t) ∧
    (∀ k, point_attr_ (self σ) !! k = None → point_attr_ out !! k = None).
Proof.
  intros Hp HP Hshape Hwf Hq masks. unfold VoxelDownSample. run_monad.
  rewrite Hp. run_monad. rewrite HP. cbn.
  unfold To_Int64, scalar_op. cbn [vrows vshape].
  unfold quantize in Hq. rewrite Hq. cbn.
  unfold IndexGet, To_Float, scalar_op. cbn [vrows vshape].
  fold masks. rewrite Hshape. cbn [tail]. rewrite anchors_fused.
  set (rows := select masks cells).
  set (t0 := {| shape_ := [length rows; 3]; blob_ := length (heap σ);
                tensor_device := GetDevice p |}).
  set (σ1 := {| heap := heap σ ++ [anchors voxel_size rows]; self := self σ |}).
  destruct (gather_attrs_run masks (map_to_list (point_attr_ (self σ)))
              (emplace "points" t0 ∅) σ1 (heap σ) [anchors voxel_size rows])
    as (acc' & news & Hrun & Hkeep & Hnew).
  { done. }
  { intros k t Hin%elem_of_map_to_list. by eapply Hwf. }
  { apply NoDup_fst_map_to_list. }
  { intros k _ Hk. rewrite emplace_lookup, lookup_empty. by rewrite decide_False. }
  rewrite Hrun. subst σ1. cbn [heap self] in *.
  assert (acc' !! "points" = Some t0) as Hpts.
  { rewrite Hkeep by (by right). by rewrite emplace_lookup, lookup_empty. }
  rewrite (PointCloud_from_map_present _ _ Hpts). cbn.
  exists {| device_ := GetDevice p; point_attr_ := acc' |},
         (anchors voxel_size rows :: news).
  rewrite <- app_assoc in *. cbn [app] in *.
  split; [done|]. split; [done|]. split; [|split].
  - exists t0. split; [done|]. split; [|done]. cbn.
    rewrite lookup_app_r by lia. by replace (_ - _) with 0 by lia.
  - intros k t Hk Ht. apply Hnew; [|done]. by apply elem_of_map_to_list.
  - intros k Hk. cbn. destruct (decide (k = "points")) as [->|Hne]; [congruence|].
    rewrite Hkeep, emplace_lookup, lookup_empty; [by rewrite decide_False|].
    left. intros ((k' & t) & Hfst & Hin%elem_of_map_to_list)%list_elem_of_fmap.
    cbn in Hfst. congruence.
Qed.

End VoxelDownSample.

Section VoxelClaims.
Context {F : Type} `{Scalar F} (hashmap : Hashmap).
Implicit Types (σ : World F) (P : list (list F)) (cells : list (list Z)).

Lemma PointCloud_from_map_throws m e :
  PointCloud_from_map m = Throw e → e = OutOfRange ∨ e = ShapeMismatch.
Proof.
  unfold PointCloud_from_map, at_, count, AssertShapeCompatible.
  destruct (m !! "points") as [p|]; cbn; [|intros [= <-]; by left].
  destruct (shape_compatible _ _); cbn; [done|]. intros [= <-]. by right.
Qed.

Lemma gather_attrs_throws ok masks kvs acc :
  throws_only (F:=F) ok (gather_attrs masks kvs acc).
Proof.
  revert acc. induction kvs as [|[key t] kvs IH]; intros acc; cbn [gather_attrs].
  - apply throws_only_ret.
  - case_decide; [|apply IH].
    apply throws_only_bind; [apply throws_only_read|intros v].
    apply throws_only_bind; [apply throws_only_alloc|intros a]. apply IH.
Qed.

Lemma VoxelDownSample_throws (voxel_size : F) :
  throws_only (F:=F) (λ e, e = OutOfRange ∨ e = ShapeMismatch)
    (VoxelDownSample hashmap voxel_size).
Proof.
  unfold VoxelDownSample.
  apply throws_only_bind; [apply throws_only_GetPointAttr; by left|intros pts].
  apply throws_only_bind; [apply throws_only_read|intros pv].
  apply throws_only_bind; [|intros cells].
  { intros σ e σ'. by destruct (To_Int64 _). }
  apply throws_only_bind; [apply throws_only_alloc|intros p].
  apply throws_only_bind; [by intros σ e σ'|intros attrs].
  apply throws_only_bind; [apply gather_attrs_throws|intros m].
  intros σ e σ'. unfold lift. intros [= Hm _]. by eapply PointCloud_from_map_throws.
Qed.

Lemma row_aligned_wf σ (n : nat) : row_aligned σ n → wf_bundle σ.
Proof.
  intros Hal k t Hk. destruct (Hal k t Hk) as (R & HR & _).
  by eapply lookup_lt_Some.
Qed.

(** The facts shared by the claims on a successful run. *)
Lemma VoxelDownSample_result σ (voxel_size : F) (p : Tensor) P cells :
  point_attr_ (self σ) !! "points" = Some p →
  heap σ !! blob_ p = Some P →
  shape_ p = [length P; 3] →
  row_aligned σ (length P) →
  quantize voxel_size P = Some cells →
  let masks := Activate hashmap cells in
  ∃ out σ',
    VoxelDownSample hashmap voxel_size σ = (Ok out, σ')
    ∧ self σ' = self σ
    ∧ (∀ b rows, heap σ !! b = Some rows → heap σ' !! b = Some rows)
    ∧ bundle_rows σ' out "points" = Some (anchors voxel_size (select masks cells))
    ∧ (∃ t, point_attr_ out !! "points" = Some t
            ∧ GetShape t = [length (remove_dups cells); 3])
    ∧ (∀ k t R, k ≠ "points" → point_attr_ (self σ) !! k = Some t →
         heap σ !! blob_ t = Some R →
         ∃ t', point_attr_ out !! k = Some t'
               ∧ heap σ' !! blob_ t' = Some (select masks R)
               ∧ length (select masks R) = length (remove_dups cells)
               ∧ GetShape t' = length (remove_dups cells) :: tail (GetShape t))
    ∧ (∀ k, is_Some (point_attr_ out !! k) ↔ is_Some (point_attr_ (self σ) !! k))
    ∧ row_aligned (with_self σ' out) (length (remove_dups cells)).
Proof.
  intros Hp HP Hshape Hal Hq masks.
  pose proof (quantize_length _ _ _ Hq) as Hlen.
  assert (∀ k t R, point_attr_ (self σ) !! k = Some t →
            heap σ !! blob_ t = Some R →
            length (select masks R) = length (remove_dups cells)) as Hsel.
  { intros k t0 R Ht0 HR. destruct (Hal k t0 Ht0) as (R' & HR' & HlenR).
    rewrite HR in HR'. injection HR' as <-. subst masks.
    rewrite <- (select_Activate_length hashmap cells).
    apply select_length_eq. congruence. }
  destruct (VoxelDownSample_run hashmap σ voxel_size p (length P) P cells)
    as (out & news & Hrun & _ & (t & Ht & Hrows & Hts & _) & Hattrs & Habsent);
    try done.
  { by apply row_aligned_wf with (n := length P). }
  fold masks in Hrows, Hts, Hattrs.
  exists out, {| heap := heap σ ++ news; self := self σ |}.
  split; [done|]. split; [done|]. cbn [heap self].
  assert (∀ k, is_Some (point_attr_ out !! k)
               ↔ is_Some (point_attr_ (self σ) !! k)) as Hdom.
  { intros k. split.
    - intros Hsome. destruct (point_attr_ (self σ) !! k) eqn:E; [done|].
      rewrite (Habsent k E) in Hsome. by destruct Hsome.
    - intros [t0 Ht0]. destruct (decide (k = "points")) as [->|Hne]; [by eexists|].
      destruct (Hattrs k t0 Hne Ht0) as (t' & ? & _). by eexists. }
  split; [intros b rows Hb; by apply lookup_app_l_Some|].
  split; [unfold bundle_rows; by rewrite Ht|].
  split.
  { exists t. split; [done|]. unfold GetShape. rewrite Hts.
    subst masks. by rewrite select_Activate_length. }
  split.
  { intros k t0 R Hk Ht0 HR. destruct (Hattrs k t0 Hk Ht0) as (t' & ? & Hl & Hs & _).
    rewrite HR in Hl, Hs. cbn in Hl, Hs. exists t'.
    split; [done|]. split; [done|]. split; [by eapply Hsel|].
    unfold GetShape. rewrite Hs. f_equal. by eapply Hsel. }
  split; [done|].
  intros k t0 Hk. unfold with_self in *. cbn [heap self] in *.
  destruct (decide (k = "points")) as [->|Hne].
  - rewrite Ht in Hk. injection Hk as <-. eexists. split; [done|].
    unfold anchors. rewrite List.length_map. subst masks.
    apply select_Activate_length.
  - destruct (Hdom k) as [[t1 Ht1] _]; [by eexists|].
    destruct (Hal k t1 Ht1) as (R & HR & _).
    destruct (Hattrs k t1 Hne Ht1) as (t' & Ht' & Hl & _).
    rewrite Hk in Ht'. injection Ht' as <-. rewrite HR in Hl. cbn in Hl.
    eexists. split; [done|]. by eapply Hsel.
Qed.

Lemma anchors_count σ' out (voxel_size : F) cells :
  bundle_rows σ' out "points" =
    Some (anchors voxel_size (select (Activate hashmap cells) cells)) →
  point_count σ' out = Some (length (remove_dups cells)).
Proof.
  intros Hrows. unfold point_count. rewrite Hrows. cbn. f_equal. unfold anchors.
  by rewrite List.length_map, select_Activate_length.
Qed.

(** C5.  On a bundle of row-aligned attributes with N x 3 points, the output
    has as many points as there are distinct quantized cells, never more than
    the input; every attribute of the input is in the output with that row
    count, holding the rows the mask of the points selects, and an attribute
    absent from the input is absent from the output. *)
Theorem C5_VoxelDownSample_count_and_attributes
    σ (voxel_size : F) (p : Tensor) P cells :
  point_attr_ (self σ) !! "points" = Some p →
  heap σ !! blob_ p = Some P →
  shape_ p = [length P; 3] →
  row_aligned σ (length P) →
  quantize voxel_size P = Some cells →
  ∃ out σ',
    VoxelDownSample hashmap voxel_size σ = (Ok out, σ')
    ∧ point_count σ' out = Some (length (remove_dups cells))
    ∧ length (remove_dups cells) ≤ length P
    ∧ bundle_rows σ' out "points" =
        Some (anchors voxel_size (select (Activate hashmap cells) cells))
    ∧ (∀ k t R, k ≠ "points" → point_attr_ (self σ) !! k = Some t →
         heap σ !! blob_ t = Some R →
         ∃ t', point_attr_ out !! k = Some t'
               ∧ heap σ' !! blob_ t' = Some (select (Activate hashmap cells) R)
               ∧ length (select (Activate hashmap cells) R)
                   = length (remove_dups cells)
               ∧ GetShape t' = length (remove_dups cells) :: tail (GetShape t))
    ∧ (∀ k, point_attr_ (self σ) !! k = None → point_attr_ out !! k = None)
    ∧ (∀ k, is_Some (point_attr_ (self σ) !! k) → is_Some (point_attr_ out !! k))
    ∧ self σ' = self σ
    ∧ (∀ b rows, heap σ !! b = Some rows → heap σ' !! b = Some rows).
Proof.
  intros Hp HP Hshape Hwf Hq.
  destruct (VoxelDownSample_result σ voxel_size p P cells)
    as (out & σ' & Hrun & Hself & Hheap & Hrows & _ & Hattrs & Hdom & _);
    try done.
  pose proof (quantize_length _ _ _ Hq) as Hlen.
  exists out, σ'. split; [done|]. split.
  { by apply (anchors_count _ _ voxel_size). }
  split.
  { rewrite <- (select_Activate_length hashmap cells), <- Hlen.
    apply select_length_le. }
  split; [done|]. split; [done|]. split; [|split; [|done]].
  - intros k Hk. destruct (point_attr_ out !! k) eqn:E; [|done].
    destruct (Hdom k) as [Hsome _]. rewrite Hk in Hsome.
    destruct Hsome; [by eexists|done].
  - intros k Hk. by apply Hdom.
Qed.

(** C2 (amended).  VoxelDownSample has no check of voxel_size: it never
    fails with InvalidArgument, and whatever the sign of voxel_size it
    down-samples a bundle with N x 3 points whose quotients convert to
    Int64, returning one point per distinct cell. *)
Theorem C2_VoxelDownSample_accepts_any_voxel_size σ (voxel_size : F) :
  (VoxelDownSample hashmap voxel_size σ).1 ≠ Throw InvalidArgument
  ∧ ∀ (p : Tensor) P cells,
      point_attr_ (self σ) !! "points" = Some p →
      heap σ !! blob_ p = Some P →
      shape_ p = [length P; 3] →
      row_aligned σ (length P) →
      quantize voxel_size P = Some cells →
      ∃ out σ',
        VoxelDownSample hashmap voxel_size σ = (Ok out, σ')
        ∧ point_count σ' out = Some (length (remove_dups cells)).
Proof.
  split.
  - destruct (VoxelDownSample hashmap voxel_size σ) as [r σ'] eqn:Hrun. cbn.
    intros ->. by destruct (VoxelDownSample_throws voxel_size _ _ _ Hrun).
  - intros p P cells Hp HP Hshape Hwf Hq.
    destruct (VoxelDownSample_result σ voxel_size p P cells)
      as (out & σ' & Hrun & _ & _ & Hrows & _); try done.
    exists out, σ'. split; [done|]. by apply (anchors_count _ _ voxel_size).
Qed.

(** The anchors: every output point is the integer cell of a selected input
    row, times voxel_size. *)
Lemma VoxelDownSample_anchors σ (voxel_size : F) (p : Tensor) P cells :
  point_attr_ (self σ) !! "points" = Some p →
  heap σ !! blob_ p = Some P →
  shape_ p = [length P; 3] →
  row_aligned σ (length P) →
  quantize voxel_size P = Some cells →
  ∃ out σ' kept,
    VoxelDownSample hashmap voxel_size σ = (Ok out, σ')
    ∧ kept = select (Activate hashmap cells) cells
    ∧ (∀ c, c ∈ kept ↔ c ∈ cells) ∧ NoDup kept
    ∧ bundle_rows σ' out "points" =
        Some (map (map (λ k, f_mul (f_of_int64 k) voxel_size)) kept).
Proof.
  intros Hp HP Hshape Hwf Hq.
  destruct (VoxelDownSample_result σ voxel_size p P cells)
    as (out & σ' & Hrun & _ & _ & Hrows & _); try done.
  exists out, σ', (select (Activate hashmap cells) cells).
  split; [done|]. split; [done|].
  split; [intros c; apply elem_of_select_Activate|].
  split; [apply NoDup_select_Activate|done].
Qed.

Lemma remove_dups_length_NoDup (l : list (list Z)) :
  NoDup l → length (remove_dups l) = length l.
Proof.
  intros Hnd. apply Permutation_length, NoDup_Permutation; [|done|].
  - apply NoDup_remove_dups.
  - intros x. apply elem_of_remove_dups.
Qed.

(** A second run, on the output of a first one with the same voxel_size:
    it sees the anchors of the first run as its points. *)
Lemma VoxelDownSample_second_run
    σ (voxel_size : F) (p : Tensor) P cells cells2 out1 σ1 :
  point_attr_ (self σ) !! "points" = Some p →
  heap σ !! blob_ p = Some P →
  shape_ p = [length P; 3] →
  row_aligned σ (length P) →
  quantize voxel_size P = Some cells →
  VoxelDownSample hashmap voxel_size σ = (Ok out1, σ1) →
  quantize voxel_size
    (anchors voxel_size (select (Activate hashmap cells) cells)) = Some cells2 →
  point_count σ1 out1 = Some (length (remove_dups cells))
  ∧ length cells2 = length (remove_dups cells)
  ∧ ∃ out2 σ2,
      VoxelDownSample hashmap voxel_size (with_self σ1 out1) = (Ok out2, σ2)
      ∧ point_count σ2 out2 = Some (length (remove_dups cells2)).
Proof.
  intros Hp HP Hshape Hal Hq Hrun1 Hq2.
  destruct (VoxelDownSample_result σ voxel_size p P cells)
    as (out & σ' & Hrun & _ & _ & Hrows & (t & Ht & Hts) & _ & _ & Hal1);
    try done.
  rewrite Hrun in Hrun1. injection Hrun1 as <- <-.
  set (kept := select (Activate hashmap cells) cells) in *.
  assert (length (anchors voxel_size kept) = length (remove_dups cells)) as Hlen1.
  { unfold anchors. rewrite List.length_map. apply select_Activate_length. }
  split; [by apply (anchors_count _ _ voxel_size)|].
  split; [by rewrite (quantize_length _ _ _ Hq2)|].
  destruct (VoxelDownSample_result (with_self σ' out) voxel_size t
              (anchors voxel_size kept) cells2)
    as (out2 & σ2 & Hrun2 & _ & _ & Hrows2 & _);
    [done | | | by rewrite Hlen1 | done |].
  { unfold bundle_rows in Hrows. by rewrite Ht in Hrows. }
  { unfold GetShape in Hts. by rewrite Hlen1. }
  exists out2, σ2. split; [done|]. by apply (anchors_count _ _ voxel_size).
Qed.

(** When the anchors do not convert to Int64 the second run is undefined. *)
Lemma VoxelDownSample_second_run_undefined
    σ (voxel_size : F) (p : Tensor) P cells out1 σ1 :
  point_attr_ (self σ) !! "points" = Some p →
  heap σ !! blob_ p = Some P →
  shape_ p = [length P; 3] →
  row_aligned σ (length P) →
  quantize voxel_size P = Some cells →
  VoxelDownSample hashmap voxel_size σ = (Ok out1, σ1) →
  quantize voxel_size
    (anchors voxel_size (select (Activate hashmap cells) cells)) = None →
  VoxelDownSample hashmap voxel_size (with_self σ1 out1)
    = (Undefined, with_self σ1 out1).
Proof.
  intros Hp HP Hshape Hal Hq Hrun1 Hq2.
  destruct (VoxelDownSample_result σ voxel_size p P cells)
    as (out & σ' & Hrun & _ & _ & Hrows & (t & Ht & _) & _); try done.
  rewrite Hrun in Hrun1. injection Hrun1 as <- <-.
  apply (VoxelDownSample_undefined hashmap _ voxel_size t
           (anchors voxel_size (select (Activate hashmap cells) cells)));
    [done| |done].
  unfold bundle_rows in Hrows. by rewrite Ht in Hrows.
Qed.

(** With pairwise distinct cells every row claims its own cell, whatever the
    hash table: the output is the list of all anchors. *)
Lemma VoxelDownSample_points_distinct σ (voxel_size : F) (p : Tensor) P cells :
  point_attr_ (self σ) !! "points" = Some p →
  heap σ !! blob_ p = Some P →
  shape_ p = [length P; 3] →
  row_aligned σ (length P) →
  quantize voxel_size P = Some cells →
  NoDup cells →
  VoxelDownSample_points hashmap voxel_size σ = Some (anchors voxel_size cells).
Proof.
  intros Hp HP Hshape Hwf Hq Hnd.
  destruct (VoxelDownSample_result σ voxel_size p P cells)
    as (out & σ' & Hrun & _ & _ & Hrows & _); try done.
  unfold VoxelDownSample_points. rewrite Hrun, Hrows.
  by rewrite (Activate_NoDup hashmap cells Hnd), select_all_true.
Qed.

(** The point counts of a run and of a second run on its output, from the
    cells of the input and the cells of the anchors. *)
Lemma VoxelDownSample_twice_counts σ (voxel_size : F) (p : Tensor) P cells cells2 :
  point_attr_ (self σ) !! "points" = Some p →
  heap σ !! blob_ p = Some P →
  shape_ p = [length P; 3] →
  row_aligned σ (length P) →
  quantize voxel_size P = Some cells →
  quantize voxel_size
    (anchors voxel_size (select (Activate hashmap cells) cells)) = Some cells2 →
  VoxelDownSample_twice hashmap voxel_size σ =
    Some (length (remove_dups cells), length (remove_dups cells2)).
Proof.
  intros Hp HP Hshape Hal Hq Hq2.
  destruct (VoxelDownSample_result σ voxel_size p P cells)
    as (out & σ' & Hrun & _); try done.
  destruct (VoxelDownSample_second_run σ voxel_size p P cells cells2 out σ')
    as (Hcount1 & _ & out2 & σ2 & Hrun2 & Hcount2); try done.
  unfold VoxelDownSample_twice. by rewrite Hrun, Hrun2, Hcount1, Hcount2.
Qed.

(** C9 (amended).  Down-sampling the output again with the same voxel_size
    never yields more points than the output has, and yields as many
    whenever every anchor quantizes back to its own cell. *)
Theorem C9_VoxelDownSample_again
    σ (voxel_size : F) (p : Tensor) P cells out1 σ1 :
  point_attr_ (self σ) !! "points" = Some p →
  heap σ !! blob_ p = Some P →
  shape_ p = [length P; 3] →
  row_aligned σ (length P) →
  quantize voxel_size P = Some cells →
  VoxelDownSample hashmap voxel_size σ = (Ok out1, σ1) →
  (∀ out2 σ2,
     VoxelDownSample hashmap voxel_size (with_self σ1 out1) = (Ok out2, σ2) →
     ∃ n1 n2, point_count σ1 out1 = Some n1 ∧ point_count σ2 out2 = Some n2
              ∧ n2 ≤ n1)
  ∧ (quantize voxel_size
       (anchors voxel_size (select (Activate hashmap cells) cells))
       = Some (select (Activate hashmap cells) cells) →
     ∃ out2 σ2,
       VoxelDownSample hashmap voxel_size (with_self σ1 out1) = (Ok out2, σ2)
       ∧ point_count σ2 out2 = point_count σ1 out1).
Proof.
  intros Hp HP Hshape Hal Hq Hrun1.
  set (kept := select (Activate hashmap cells) cells).
  split.
  - intros out2 σ2 Hrun2.
    destruct (quantize voxel_size (anchors voxel_size kept)) as [cells2|] eqn:Hq2.
    + destruct (VoxelDownSample_second_run σ voxel_size p P cells cells2 out1 σ1)
        as (Hcount1 & Hlen2 & out2' & σ2' & Hrun2' & Hcount2); try done.
      rewrite Hrun2' in Hrun2. injection Hrun2 as <- <-.
      exists (length (remove_dups cells)), (length (remove_dups cells2)).
      split; [done|]. split; [done|].
      rewrite <- Hlen2, <- (select_Activate_length hashmap cells2).
      apply select_length_le.
    + rewrite (VoxelDownSample_second_run_undefined σ voxel_size p P cells out1 σ1)
        in Hrun2; done.
  - intros Hq2.
    destruct (VoxelDownSample_second_run σ voxel_size p P cells kept out1 σ1)
      as (Hcount1 & _ & out2 & σ2 & Hrun2 & Hcount2); try done.
    exists out2, σ2. split; [done|]. rewrite Hcount1, Hcount2. f_equal.
    rewrite remove_dups_length_NoDup by apply NoDup_select_Activate.
    apply select_Activate_length.
Qed.


End VoxelClaims.

(** In exact arithmetic every anchor quantizes back to its cell, for any
    voxel_size other than 0. *)
Lemma Qc_to_int64_of_Z (k : Z) :
  in_int64 k = true → Qc_to_int64 (Qc_of_Z k) = Some k.
Proof.
  intros Hk. unfold Qc_to_int64, Qc_trunc, Qc_of_Z. cbn [this Q2Qc].
  rewrite Qred_identity by apply Z.gcd_1_r. cbn. rewrite Z.quot_1_r.
  by rewrite Hk.
Qed.

Lemma Qc_requantize (voxel_size : Qc) (kept : list (list Z)) :
  voxel_size ≠ Q2Qc 0 →
  Forall (Forall (λ k, in_int64 k = true)) kept →
  quantize voxel_size (anchors voxel_size kept) = Some kept.
Proof.
  intros Hv Hkept. unfold quantize, anchors. rewrite map_map.
  apply mapM_Some, Forall2_fmap_l, Forall_Forall2_diag.
  eapply Forall_impl; [exact Hkept|]. intros row Hrow. unfold compose.
  rewrite map_map. apply mapM_Some, Forall2_fmap_l, Forall_Forall2_diag.
  eapply Forall_impl; [exact Hrow|]. intros k Hk. unfold compose.
  cbn [f_to_int64 f_div f_mul f_of_int64 Qc_Scalar].
  replace (Qc_of_Z k * voxel_size / voxel_size)%Qc with (Qc_of_Z k)
    by (field; exact Hv).
  by apply Qc_to_int64_of_Z.
Qed.

Lemma Qc_quantize_in_int64 (voxel_size : Qc) P cells :
  quantize voxel_size P = Some cells →
  Forall (Forall (λ k, in_int64 k = true)) cells.
Proof.
  unfold quantize. intros Hq%mapM_Some_1.
  induction Hq as [|row crow rows cs Hrow _ IH]; constructor; [|exact IH].
  apply mapM_Some_1 in Hrow. clear IH.
  induction Hrow as [|x k xs ks Hx _ IH]; constructor; [|exact IH].
  cbn [f_to_int64 Qc_Scalar] in Hx. unfold Qc_to_int64 in Hx.
  destruct (in_int64 (Qc_trunc x)) eqn:E; [|done]. by injection Hx as <-.
Qed.

Lemma Qc_VoxelDownSample_cell_stable (hashmap : Hashmap)
    (σ : World Qc) (voxel_size : Qc) (p : Tensor) P cells out1 σ1 :
  voxel_size ≠ Q2Qc 0 →
  point_attr_ (self σ) !! "points" = Some p →
  heap σ !! blob_ p = Some P →
  shape_ p = [length P; 3] →
  row_aligned σ (length P) →
  quantize voxel_size P = Some cells →
  VoxelDownSample hashmap voxel_size σ = (Ok out1, σ1) →
  ∃ out2 σ2,
    VoxelDownSample hashmap voxel_size (with_self σ1 out1) = (Ok out2, σ2)
    ∧ point_count σ2 out2 = point_count σ1 out1.
Proof.
  intros Hv Hp HP Hshape Hal Hq Hrun.
  set (kept := select (Activate hashmap cells) cells).
  assert (quantize voxel_size (anchors voxel_size kept) = Some kept) as Hq2.
  { apply Qc_requantize; [done|].
    pose proof (Qc_quantize_in_int64 _ _ _ Hq) as Hcells.
    rewrite Forall_forall in Hcells. apply Forall_forall.
    intros c Hc%elem_of_select_Activate. by apply Hcells. }
  destruct (VoxelDownSample_second_run hashmap σ voxel_size p P cells kept out1 σ1)
    as (Hcount1 & _ & out2 & σ2 & Hrun2 & Hcount2); try done.
  exists out2, σ2. split; [done|]. rewrite Hcount1, Hcount2. f_equal.
  rewrite remove_dups_length_NoDup by apply NoDup_select_Activate.
  apply select_Activate_length.
Qed.

(** ** The claims on concrete inputs *)

Lemma row_alignedb_spec {F : Type} (σ : World F) (n : nat) :
  row_alignedb σ n = true → row_aligned σ n.
Proof.
  unfold row_alignedb, row_aligned. rewrite forallb_forall. intros Hall k t Hk.
  specialize (Hall (k, t)). cbn in Hall.
  destruct (heap σ !! blob_ t) as [R|]; [|discriminate Hall].
  - exists R. split; [done|]. apply Nat.eqb_eq, Hall.
    by apply list_elem_of_In, elem_of_map_to_list.
  - by apply list_elem_of_In, elem_of_map_to_list.
Qed.

(** C1.  The cell of the coordinate -0.1 with voxel_size 1.0 is 0: the
    conversion to Int64 discards the fraction (rounds toward zero), where
    the arithmetic floor is -1.  The point (-0.1, 0, 0) is down-sampled to
    the anchor (0, 0, 0), whatever the hash table. *)
Theorem C1_quantization_truncates_toward_zero :
  f_to_int64 (f_div (b64_lit (-1) 10) (b64 1)) = Some 0%Z
  ∧ b64_floor (f_div (b64_lit (-1) 10) (b64 1)) = Some (-1)%Z
  ∧ quantize (b64 1) [[b64_lit (-1) 10; b64 0; b64 0]] = Some [[0; 0; 0]]%Z
  ∧ ∀ hashmap : Hashmap,
      VoxelDownSample_points hashmap (b64 1) cloud_C1
        = Some [[b64 0; b64 0; b64 0]].
Proof.
  split; [vm_compute; reflexivity|].
  split; [vm_compute; reflexivity|].
  split; [vm_compute; reflexivity|].
  intros hashmap.
  rewrite (VoxelDownSample_points_distinct hashmap cloud_C1 (b64 1)
             {| shape_ := [1; 3]; blob_ := 0; tensor_device := CPU 0 |}
             [[b64_lit (-1) 10; b64 0; b64 0]] [[0; 0; 0]]%Z).
  - vm_compute. reflexivity.
  - reflexivity.
  - reflexivity.
  - reflexivity.
  - apply row_alignedb_spec. vm_compute. reflexivity.
  - vm_compute. reflexivity.
  - apply NoDup_singleton.
Qed.

(** C2, refuted as stated: with voxel_size = -1 the call does not fail with
    InvalidArgument, it down-samples the point (1.5, 0, 0) to the anchor
    (1, -0, -0), whatever the hash table. *)
Lemma C2_negative_voxel_size_is_accepted :
  (VoxelDownSample in_order_hashmap (b64 (-1)) cloud_C2).1 ≠ Throw InvalidArgument
  ∧ quantize (b64 (-1)) [[b64_lit 15 10; b64 0; b64 0]] = Some [[-1; 0; 0]]%Z
  ∧ ∀ hashmap : Hashmap,
      VoxelDownSample_points hashmap (b64 (-1)) cloud_C2
        = Some [[b64 1; S754_zero true; S754_zero true]].
Proof.
  split; [vm_compute; discriminate|].
  split; [vm_compute; reflexivity|].
  intros hashmap.
  rewrite (VoxelDownSample_points_distinct hashmap cloud_C2 (b64 (-1))
             {| shape_ := [1; 3]; blob_ := 0; tensor_device := CPU 0 |}
             [[b64_lit 15 10; b64 0; b64 0]] [[-1; 0; 0]]%Z).
  - vm_compute. reflexivity.
  - reflexivity.
  - reflexivity.
  - reflexivity.
  - apply row_alignedb_spec. vm_compute. reflexivity.
  - vm_compute. reflexivity.
  - apply NoDup_singleton.
Qed.

(** With voxel_size = 0 the quotients are infinite or NaN and their
    conversion to Int64 is undefined. *)
Example VoxelDownSample_zero_voxel_size :
  (VoxelDownSample in_order_hashmap (b64 0) cloud_C2).1 = Undefined.
Proof. vm_compute. reflexivity. Qed.

(** Whichever of the first two rows claims the cell (0,0,0), the selected
    cells are (0,0,0) and (5,5,5), in this order. *)
Lemma select_C4 (masks : list bool) :
  length masks = 3 →
  NoDup (select masks [[0; 0; 0]; [0; 0; 0]; [5; 5; 5]]%Z) →
  (∀ c, c ∈ [[0; 0; 0]; [0; 0; 0]; [5; 5; 5]]%Z →
        c ∈ select masks [[0; 0; 0]; [0; 0; 0]; [5; 5; 5]]%Z) →
  select masks [[0; 0; 0]; [0; 0; 0]; [5; 5; 5]]%Z = [[0; 0; 0]; [5; 5; 5]]%Z.
Proof.
  intros Hlen Hnd Hin.
  pose proof (Hin [0; 0; 0]%Z ltac:(by left)) as H0.
  pose proof (Hin [5; 5; 5]%Z ltac:(by right; right; left)) as H5.
  destruct masks as [|b1 [|b2 [|b3 [|? ?]]]]; try done.
  destruct b1, b2, b3; cbn in *; try done.
  - apply NoDup_cons in Hnd as [Hnd _]. destruct Hnd. by left.
  - apply NoDup_cons in Hnd as [Hnd _]. destruct Hnd. by left.
  - apply list_elem_of_singleton in H5. done.
  - apply list_elem_of_singleton in H5. done.
  - apply list_elem_of_singleton in H0. done.
  - by apply elem_of_nil in H0.
Qed.

(** C4.  Every output point is the integer cell of a selected input row
    multiplied by voxel_size; the points (0,0,0), (0.1,0,0), (5,5,5) with
    voxel_size 1 give exactly (0,0,0) and (5,5,5), whichever row the hash
    table lets win. *)
Theorem C4_VoxelDownSample_outputs_anchors :
  (∀ (F : Type) (H : Scalar F) (hashmap : Hashmap) (σ : World F)
     (voxel_size : F) (p : Tensor) (P : list (list F)) (cells : list (list Z)),
     point_attr_ (self σ) !! "points" = Some p →
     heap σ !! blob_ p = Some P →
     shape_ p = [length P; 3] →
     row_aligned σ (length P) →
     quantize voxel_size P = Some cells →
     ∃ out σ' kept,
       VoxelDownSample hashmap voxel_size σ = (Ok out, σ')
       ∧ kept = select (Activate hashmap cells) cells
       ∧ (∀ c, c ∈ kept ↔ c ∈ cells) ∧ NoDup kept
       ∧ bundle_rows σ' out "points" =
           Some (map (map (λ k, f_mul (f_of_int64 k) voxel_size)) kept))
  ∧ (∀ hashmap : Hashmap,
       VoxelDownSample_points hashmap (b64 1) cloud_C4
         = Some [[b64 0; b64 0; b64 0]; [b64 5; b64 5; b64 5]]).
Proof.
  split.
  - intros F H hashmap. apply VoxelDownSample_anchors.
  - intros hashmap.
    destruct (VoxelDownSample_anchors hashmap cloud_C4 (b64 1)
                {| shape_ := [3; 3]; blob_ := 0; tensor_device := CPU 0 |}
                [[b64 0; b64 0; b64 0]; [b64_lit 1 10; b64 0; b64 0];
                 [b64 5; b64 5; b64 5]]
                [[0; 0; 0]; [0; 0; 0]; [5; 5; 5]]%Z)
      as (out & σ' & kept & Hrun & Hkept & Hin & Hnd & Hrows).
    { reflexivity. }
    { reflexivity. }
    { reflexivity. }
    { apply row_alignedb_spec. vm_compute. reflexivity. }
    { vm_compute. reflexivity. }
    unfold VoxelDownSample_points. rewrite Hrun, Hrows. f_equal.
    assert (kept = [[0; 0; 0]; [5; 5; 5]]%Z) as ->.
    { subst kept. apply select_C4.
      - apply Activate_length.
      - apply NoDup_select_Activate.
      - intros c Hc. by apply elem_of_select_Activate. }
    vm_compute. reflexivity.
Qed.

(** C4 on the points (0,0,0), (0.1,0,0), (5,5,5) with voxel_size 1 and the
    in-order hash table. *)
Lemma C4_witness :
  quantize (b64 1)
    [[b64 0; b64 0; b64 0]; [b64_lit 1 10; b64 0; b64 0]; [b64 5; b64 5; b64 5]]
    = Some [[0; 0; 0]; [0; 0; 0]; [5; 5; 5]]%Z
  ∧ ∃ out σ' kept,
      VoxelDownSample in_order_hashmap (b64 1) cloud_C4 = (Ok out, σ')
      ∧ kept = select (Activate in_order_hashmap
                         [[0; 0; 0]; [0; 0; 0]; [5; 5; 5]]%Z)
                      [[0; 0; 0]; [0; 0; 0]; [5; 5; 5]]%Z
      ∧ (∀ c, c ∈ kept ↔ c ∈ [[0; 0; 0]; [0; 0; 0]; [5; 5; 5]]%Z)
      ∧ NoDup kept
      ∧ bundle_rows σ' out "points" =
          Some (map (map (λ k, f_mul (f_of_int64 k) (b64 1))) kept).
Proof.
  split; [vm_compute; reflexivity|].
  apply (proj1 C4_VoxelDownSample_outputs_anchors binary64 _ in_order_hashmap
           cloud_C4 (b64 1)
           {| shape_ := [3; 3]; blob_ := 0; tensor_device := CPU 0 |}
           [[b64 0; b64 0; b64 0]; [b64_lit 1 10; b64 0; b64 0];
            [b64 5; b64 5; b64 5]]).
  - reflexivity.
  - reflexivity.
  - reflexivity.
  - apply row_alignedb_spec. vm_compute. reflexivity.
  - vm_compute. reflexivity.
Defined.

(** C5 on the same points with colors: two points are left, the colors of
    the rows that claimed their cell are kept, and there are no normals. *)
Lemma C5_witness :
  ∃ out σ',
    VoxelDownSample in_order_hashmap (b64 1) cloud_C5 = (Ok out, σ')
    ∧ point_count σ' out = Some 2
    ∧ bundle_rows σ' out "colors"
        = Some [[b64 1; b64 0; b64 0]; [b64 0; b64 0; b64 1]]
    ∧ point_attr_ out !! "normals" = None.
Proof.
  destruct (C5_VoxelDownSample_count_and_attributes in_order_hashmap cloud_C5
              (b64 1)
              {| shape_ := [3; 3]; blob_ := 0; tensor_device := CPU 0 |}
              [[b64 0; b64 0; b64 0]; [b64_lit 1 10; b64 0; b64 0];
               [b64 5; b64 5; b64 5]]
              [[0; 0; 0]; [0; 0; 0]; [5; 5; 5]]%Z)
    as (out & σ' & Hrun & Hcount & _ & _ & Hattrs & Habsent & _).
  { reflexivity. }
  { reflexivity. }
  { reflexivity. }
  { apply row_alignedb_spec. vm_compute. reflexivity. }
  { vm_compute. reflexivity. }
  exists out, σ'. split; [exact Hrun|]. split; [exact Hcount|]. split.
  - destruct (Hattrs "colors"
                {| shape_ := [3; 3]; blob_ := 1; tensor_device := CPU 0 |}
                [[b64 1; b64 0; b64 0]; [b64 1; b64 0; b64 0];
                 [b64 0; b64 0; b64 1]])
      as (t' & Ht' & Hrows & _); [discriminate|reflexivity|reflexivity|].
    unfold bundle_rows. rewrite Ht'. exact Hrows.
  - apply Habsent. reflexivity.
Defined.

(** C9, refuted as stated: in binary64 the points (1.4,0,0) and (2.1,0,0)
    with voxel_size 0.7 fall in the cells 2 and 3 and give two anchors,
    1.4 and 3 * 0.7 = 2.0999999999999996; the second quantizes to cell 2
    again, and a second run returns one point, whatever the hash table. *)
Lemma C9_second_run_loses_a_point :
  VoxelDownSample_twice in_order_hashmap (b64_lit 7 10) cloud_C9 = Some (2, 1)
  ∧ quantize (b64_lit 7 10)
      [[b64_lit 14 10; b64 0; b64 0]; [b64_lit 21 10; b64 0; b64 0]]
      = Some [[2; 0; 0]; [3; 0; 0]]%Z
  ∧ quantize (b64_lit 7 10) (anchors (b64_lit 7 10) [[2; 0; 0]; [3; 0; 0]]%Z)
      = Some [[2; 0; 0]; [2; 0; 0]]%Z
  ∧ ∀ hashmap : Hashmap,
      VoxelDownSample_twice hashmap (b64_lit 7 10) cloud_C9 = Some (2, 1).
Proof.
  split; [vm_compute; reflexivity|].
  split; [vm_compute; reflexivity|].
  split; [vm_compute; reflexivity|].
  intros hashmap.
  assert (NoDup [[2; 0; 0]; [3; 0; 0]]%Z) as Hnd.
  { apply NoDup_cons. split; [|apply NoDup_singleton].
    intros Hin%list_elem_of_singleton. discriminate. }
  rewrite (VoxelDownSample_twice_counts hashmap cloud_C9 (b64_lit 7 10)
             {| shape_ := [2; 3]; blob_ := 0; tensor_device := CPU 0 |}
             [[b64_lit 14 10; b64 0; b64 0]; [b64_lit 21 10; b64 0; b64 0]]
             [[2; 0; 0]; [3; 0; 0]]%Z [[2; 0; 0]; [2; 0; 0]]%Z).
  - reflexivity.
  - reflexivity.
  - reflexivity.
  - reflexivity.
  - apply row_alignedb_spec. vm_compute. reflexivity.
  - vm_compute. reflexivity.
  - rewrite (Activate_NoDup hashmap _ Hnd). vm_compute. reflexivity.
Qed.

(** C9 (amended) on the points (0,0,0), (0.1,0,0), (5,5,5) with voxel_size
    1: the anchors 0 and 5 quantize back to their cells and the second run
    keeps both points. *)
Lemma C9_witness :
  ∃ out2 σ2,
    VoxelDownSample in_order_hashmap (b64 1)
      (with_self (VoxelDownSample in_order_hashmap (b64 1) cloud_C4).2
         match (VoxelDownSample in_order_hashmap (b64 1) cloud_C4).1 with
         | Ok out1 => out1
         | _ => PointCloud_from_device (CPU 0)
         end) = (Ok out2, σ2)
    ∧ point_count σ2 out2 = Some 2.
Proof.
  destruct (VoxelDownSample in_order_hashmap (b64 1) cloud_C4)
    as [r σ1] eqn:Hrun.
  assert (∃ out1, r = Ok out1 ∧ point_count σ1 out1 = Some 2)
    as (out1 & -> & Hcount).
  { vm_compute in Hrun. injection Hrun as <- <-. eexists. split; [reflexivity|].
    vm_compute. reflexivity. }
  destruct (C9_VoxelDownSample_again in_order_hashmap cloud_C4 (b64 1)
              {| shape_ := [3; 3]; blob_ := 0; tensor_device := CPU 0 |}
              [[b64 0; b64 0; b64 0]; [b64_lit 1 10; b64 0; b64 0];
               [b64 5; b64 5; b64 5]]
              [[0; 0; 0]; [0; 0; 0]; [5; 5; 5]]%Z out1 σ1)
    as [_ Hstable].
  { reflexivity. }
  { reflexivity. }
  { reflexivity. }
  { apply row_alignedb_spec. vm_compute. reflexivity. }
  { vm_compute. reflexivity. }
  { exact Hrun. }
  destruct Hstable as (out2 & σ2 & Hrun2 & Hcount2).
  { vm_compute. reflexivity. }
  exists out2, σ2. cbn [fst snd]. split; [exact Hrun2|]. by rewrite Hcount2.
Defined.



(** C8 on the points (1,0,0), (3,2,0) with normals: a vector given as the
    matrix of Transform and as the rotation of Rotate, and a matrix given
    as the vector of Translate and as the center of Scale, are rejected in
    the state the call was entered in. *)
Lemma C8_witness :
  well_shaped cloud_Qc
  ∧ rejected (Transform vector_Qc cloud_Qc) cloud_Qc
  ∧ rejected (Translate matrix_Qc false cloud_Qc) cloud_Qc
  ∧ rejected (Scale (q 2) matrix_Qc cloud_Qc) cloud_Qc
  ∧ rejected (Rotate vector_Qc matrix_Qc cloud_Qc) cloud_Qc
  ∧ ∀ e σ', e = ShapeMismatch ∨ e = DeviceMismatch →
      Rotate vector_Qc matrix_Qc cloud_Qc = (Throw e, σ') → σ' = cloud_Qc.
Proof.
  assert (well_shaped cloud_Qc) as Hwf.
  { intros key t [->| ->] Ht; vm_compute in Ht; injection Ht as <-;
      (split; [reflexivity|]); eexists;
      (split; [reflexivity|]); (split; [reflexivity|repeat constructor]). }
  destruct (C8_validation_precedes_mutation vector_Qc matrix_Qc matrix_Qc
              vector_Qc false (q 2) cloud_Qc)
    as (HT & HTr & HS & HR & Hatomic).
  split; [exact Hwf|].
  split; [apply HT; intros [Hs _]; discriminate|].
  split; [apply HTr; intros [Hs _]; discriminate|].
  split; [apply HS; intros [Hs _]; discriminate|].
  split; [apply HR; intros [[Hs _] _]; discriminate|].
  intros e σ' He. by destruct (Hatomic Hwf e σ' He) as (_ & _ & _ & Ha).
Defined.

(** C10 on the same input: the blob of the argument holds v - centroid
    after the call with relative = false, and v with relative = true. *)
Lemma C10_witness :
  (∃ σ', Translate vector_Qc false cloud_Qc = (Ok (), σ')
         ∧ heap σ' !! 2 = Some (as_column (vsub [q 1; q 2; q 3]
                                  (centroid [[q 1; q 0; q 0]; [q 3; q 2; q 0]]))))
  ∧ (∃ σ', Translate vector_Qc true cloud_Qc = (Ok (), σ')
           ∧ heap σ' !! 2 = Some [[q 1]; [q 2]; [q 3]]).
Proof.
  apply (C10_Translate_overwrites_argument cloud_Qc vector_Qc
           {| shape_ := [2; 3]; blob_ := 0; tensor_device := CPU 0 |}
           [[q 1; q 0; q 0]; [q 3; q 2; q 0]] [q 1; q 2; q 3]).
  - split; reflexivity.
  - reflexivity.
  - reflexivity.
  - reflexivity.
  - reflexivity.
  - reflexivity.
  - repeat constructor.
Defined.

(** C7 on the same points with normals, for a quarter turn about z followed
    by the shift (10, 20, 30). *)
Lemma C7_witness :
  ∃ σ', Transform matrix_Qc cloud_Qc = (Ok (), σ')
    ∧ attr_rows σ' "points" =
        Some (map (affine [[q 0; q (-1); q 0]; [q 1; q 0; q 0]; [q 0; q 0; q 1]]
                          [q 10; q 20; q 30])
                  [[q 1; q 0; q 0]; [q 3; q 2; q 0]])
    ∧ attr_rows σ' "normals" =
        Some (map (matvec [[q 0; q (-1); q 0]; [q 1; q 0; q 0]; [q 0; q 0; q 1]])
                  [[q 0; q 0; q 1]; [q 1; q 0; q 0]]).
Proof.
  destruct (C7_Transform_points_and_normals cloud_Qc matrix_Qc
              {| shape_ := [2; 3]; blob_ := 0; tensor_device := CPU 0 |}
              [[q 0; q (-1); q 0; q 10]; [q 1; q 0; q 0; q 20];
               [q 0; q 0; q 1; q 30]; [q 0; q 0; q 0; q 1]]
              [[q 1; q 0; q 0]; [q 3; q 2; q 0]])
    as (σ' & Hrun & Hpoints & Hnormals & _).
  { split; reflexivity. }
  { reflexivity. }
  { repeat constructor. }
  { reflexivity. }
  { reflexivity. }
  { reflexivity. }
  { repeat constructor. }
  { intros nt Hnt. exists [[q 0; q 0; q 1]; [q 1; q 0; q 0]].
    assert (nt = {| shape_ := [2; 3]; blob_ := 1; tensor_device := CPU 0 |})
      as -> by (vm_compute in Hnt; congruence).
    split; [reflexivity|]. split; [reflexivity|repeat constructor]. }
  exists σ'. split; [exact Hrun|]. split; [exact Hpoints|].
  apply Hnormals. reflexivity.
Defined.

(** * Further properties of the transforms and of the down-sampling *)

(** ** Scale *)

Section Scale.
Context {F : Type} `{Scalar F}.
Implicit Types (σ : World F) (P : list (list F)) (c : list F).

Lemma scalar_op_rows (op : F → F → F) (p : Tensor) P (s : F) :
  vrows (scalar_op op (tval p P) s) = map (map (λ e, op e s)) P.
Proof. done. Qed.

Lemma Scale_state σ (s : F) (ct p : Tensor) P c :
  arg_ok σ ct [3] →
  heap σ !! blob_ ct = Some (as_column c) → length c = 3 →
  point_attr_ (self σ) !! "points" = Some p →
  heap σ !! blob_ p = Some P →
  shape_ p = [length P; 3] → rows_of_width 3 P →
  Scale s ct σ =
    (Ok (), {| heap := <[blob_ p := map (scaled s c) P]> (heap σ);
               self := self σ |}).
Proof.
  intros [Hs Hd] Hc Hlen Hp HP Hshape Hw.
  assert (blob_ ct ≠ blob_ p) as Hne by (by eapply vector_blob_distinct).
  assert (blob_ p < length (heap σ)) as Hlt by (by eapply lookup_lt_Some).
  unfold Scale. run_monad.
  rewrite (AssertShape_ok _ _ Hs), (AssertDevice_ok _ _ Hd). run_monad.
  rewrite Hp. run_monad. rewrite Hc, HP. cbn.
  rewrite !list_insert_insert_eq.
  rewrite !list_lookup_insert_eq by (by rewrite ?length_insert).
  rewrite !list_lookup_insert_ne by done. rewrite Hc. cbn.
  change {| vshape := shape_ p; vrows := P |} with (tval p P).
  rewrite (broadcast_rows f_sub p P (length P) _ c) by done.
  match goal with
  | |- context [scalar_op f_mul {| vshape := shape_ p; vrows := ?X |} s] =>
      change {| vshape := shape_ p; vrows := X |} with (tval p X)
  end.
  rewrite scalar_op_rows.
  match goal with
  | |- context [broadcast f_add {| vshape := shape_ p; vrows := ?X |} _] =>
      change {| vshape := shape_ p; vrows := X |} with (tval p X)
  end.
  rewrite (broadcast_rows f_add p _ (length P) _ c) by done.
  rewrite !map_map. done.
Qed.

Lemma scaled_length (s : F) c (p : list F) :
  length p = 3 → length c = 3 → length (scaled s c p) = 3.
Proof.
  intros Hp Hc. unfold scaled, vadd, vsub.
  rewrite length_zip_with, List.length_map, length_zip_with. lia.
Qed.

Lemma scaled_width (s : F) c P :
  rows_of_width 3 P → length c = 3 → rows_of_width 3 (map (scaled s c) P).
Proof.
  intros HP Hc. unfold rows_of_width. apply Forall_map.
  eapply Forall_impl; [exact HP|]. intros p Hp. by apply scaled_length.
Qed.

(** X1.  Scale(s, center) on a bundle with N x 3 points replaces every
    point p by (p - center)·s + center in place: the bundle keeps its
    handles, the blob of the points holds the new rows, and every other
    blob (the center, the normals) is as before. *)
Theorem Scale_points_in_place σ (s : F) (ct p : Tensor) P c :
  arg_ok σ ct [3] →
  heap σ !! blob_ ct = Some (as_column c) → length c = 3 →
  point_attr_ (self σ) !! "points" = Some p →
  heap σ !! blob_ p = Some P →
  shape_ p = [length P; 3] → rows_of_width 3 P →
  ∃ σ', Scale s ct σ = (Ok (), σ')
    ∧ self σ' = self σ
    ∧ attr_rows σ' "points" = Some (map (scaled s c) P)
    ∧ heap σ' !! blob_ p = Some (map (scaled s c) P)
    ∧ ∀ b, b ≠ blob_ p → heap σ' !! b = heap σ !! b.
Proof.
  intros Harg Hc Hlen Hp HP Hshape Hw.
  assert (blob_ p < length (heap σ)) as Hlt by (by eapply lookup_lt_Some).
  eexists. split; [by apply (Scale_state σ s ct p P c)|].
  cbn [heap self]. split; [done|].
  assert (<[blob_ p:=map (scaled s c) P]> (heap σ) !! blob_ p
          = Some (map (scaled s c) P)) as Hnew
    by (by apply list_lookup_insert_eq).
  split; [unfold attr_rows; cbn [heap self]; by rewrite Hp|].
  split; [done|]. intros b Hb. by apply list_lookup_insert_ne.
Qed.

(** X2.  Scale leaves the bundle as it needs it, so calls compose, whatever
    the element type: after Scale(s1, c1) then Scale(s2, c2) every point p
    is ((p - c1)·s1 + c1 - c2)·s2 + c2, in the storage the points had, with
    the handles of the bundle and every other blob as before. *)
Theorem Scale_twice σ (s1 s2 : F) (ct1 ct2 p : Tensor) P c1 c2 :
  arg_ok σ ct1 [3] → arg_ok σ ct2 [3] →
  heap σ !! blob_ ct1 = Some (as_column c1) → length c1 = 3 →
  heap σ !! blob_ ct2 = Some (as_column c2) → length c2 = 3 →
  point_attr_ (self σ) !! "points" = Some p →
  heap σ !! blob_ p = Some P →
  shape_ p = [length P; 3] → rows_of_width 3 P →
  ∃ σ1 σ2,
    Scale s1 ct1 σ = (Ok (), σ1)
    ∧ Scale s2 ct2 σ1 = (Ok (), σ2)
    ∧ self σ2 = self σ
    ∧ attr_rows σ2 "points" =
        Some (map (λ x, scaled s2 c2 (scaled s1 c1 x)) P)
    ∧ ∀ b, b ≠ blob_ p → heap σ2 !! b = heap σ !! b.
Proof.
  intros Harg1 Harg2 Hc1 Hlen1 Hc2 Hlen2 Hp HP Hshape Hw.
  assert (blob_ ct2 ≠ blob_ p) as Hne2 by (by eapply vector_blob_distinct).
  assert (blob_ p < length (heap σ)) as Hlt by (by eapply lookup_lt_Some).
  set (P1 := map (scaled s1 c1) P).
  set (σ1 := {| heap := <[blob_ p := P1]> (heap σ); self := self σ |}).
  assert (heap σ1 !! blob_ p = Some P1) as HP1
    by (by apply list_lookup_insert_eq).
  assert (heap σ1 !! blob_ ct2 = Some (as_column c2)) as Hc2'.
  { unfold σ1. cbn [heap]. by rewrite list_lookup_insert_ne. }
  assert (shape_ p = [length P1; 3]) as Hshape1
    by (unfold P1; by rewrite List.length_map).
  pose proof (scaled_width s1 c1 P Hw Hlen1) as Hw1. fold P1 in Hw1.
  exists σ1, {| heap := <[blob_ p := map (scaled s2 c2) P1]> (heap σ1);
               self := self σ1 |}.
  split; [by apply (Scale_state σ s1 ct1 p P c1)|].
  split; [by apply (Scale_state σ1 s2 ct2 p P1 c2)|].
  split; [done|]. unfold σ1. cbn [heap self]. split.
  - unfold attr_rows. cbn [heap self]. rewrite Hp.
    rewrite list_lookup_insert_eq by (by rewrite length_insert).
    unfold P1. by rewrite map_map.
  - intros b Hb. by rewrite !list_lookup_insert_ne.
Qed.

End Scale.

(** X1 on the points (1,0,0), (3,2,0) with normals, scaled by 2 about
    (1,2,3). *)
Lemma Scale_points_in_place_witness :
  ∃ σ', Scale (q 2) vector_Qc cloud_Qc = (Ok (), σ')
    ∧ attr_rows σ' "points" =
        Some [[q 1; q (-2); q (-3)]; [q 5; q 2; q (-3)]]
    ∧ attr_rows σ' "normals" = attr_rows cloud_Qc "normals"
    ∧ heap σ' !! 2 = Some [[q 1]; [q 2]; [q 3]].
Proof.
  destruct (Scale_points_in_place cloud_Qc (q 2) vector_Qc
              {| shape_ := [2; 3]; blob_ := 0; tensor_device := CPU 0 |}
              [[q 1; q 0; q 0]; [q 3; q 2; q 0]] [q 1; q 2; q 3])
    as (σ' & Hrun & Hself & Hrows & _ & Hframe).
  { split; reflexivity. }
  { reflexivity. }
  { reflexivity. }
  { reflexivity. }
  { reflexivity. }
  { reflexivity. }
  { repeat constructor. }
  exists σ'. split; [exact Hrun|]. split; [rewrite Hrows; reflexivity|].
  split.
  - unfold attr_rows. rewrite Hself. cbn. apply Hframe. discriminate.
  - rewrite Hframe by discriminate. reflexivity.
Defined.

(** X2 on the same input: scaling by 2, then by 3, about (1,2,3). *)
Lemma Scale_twice_witness :
  ∃ σ1 σ2,
    Scale (q 2) vector_Qc cloud_Qc = (Ok (), σ1)
    ∧ Scale (q 3) vector_Qc σ1 = (Ok (), σ2)
    ∧ attr_rows σ2 "points" =
        Some [[q 1; q (-10); q (-15)]; [q 13; q 2; q (-15)]]
    ∧ attr_rows σ2 "normals" = attr_rows cloud_Qc "normals".
Proof.
  destruct (Scale_twice cloud_Qc (q 2) (q 3) vector_Qc vector_Qc
              {| shape_ := [2; 3]; blob_ := 0; tensor_device := CPU 0 |}
              [[q 1; q 0; q 0]; [q 3; q 2; q 0]]
              [q 1; q 2; q 3] [q 1; q 2; q 3])
    as (σ1 & σ2 & Hrun1 & Hrun2 & Hself & Hrows & Hframe).
  { split; reflexivity. }
  { split; reflexivity. }
  { reflexivity. }
  { reflexivity. }
  { reflexivity. }
  { reflexivity. }
  { reflexivity. }
  { reflexivity. }
  { reflexivity. }
  { repeat constructor. }
  exists σ1, σ2. split; [exact Hrun1|]. split; [exact Hrun2|].
  split; [rewrite Hrows; reflexivity|].
  unfold attr_rows. rewrite Hself. cbn. apply Hframe. discriminate.
Defined.

(** ** Rotate *)

Section Rotate.
Context {F : Type} `{Scalar F}.
Implicit Types (σ : World F) (P : list (list F)) (c : list F).

Lemma vsub_width P c :
  rows_of_width 3 P → length c = 3 →
  rows_of_width 3 (map (λ q, vsub q c) P).
Proof.
  intros HP Hc. unfold rows_of_width. apply Forall_map.
  eapply Forall_impl; [exact HP|]. intros p Hp. unfold vsub.
  rewrite length_zip_with. cbn in *. lia.
Qed.

Lemma broadcast_matrix_vector (op : F → F → F) (x y : TVal F) (n w k : nat) d :
  vshape x = [n; w] → vshape y = [k] → vrows y = as_column d →
  broadcast op x y =
    {| vshape := [n; w]; vrows := map (λ q, zip_with op q d) (vrows x) |}.
Proof.
  intros Hx Hy Hd. unfold broadcast. rewrite Hx, Hy, Hd.
  by rewrite concat_as_column.
Qed.

(** The state [Rotate] leaves: the blob of the points holds the points
    shifted by the center, and the rotated points and normals are in fresh
    blobs. *)
Lemma Rotate_state σ (Rt ct p : Tensor) Rr P c :
  arg_ok σ Rt [3; 3] → arg_ok σ ct [3] →
  heap σ !! blob_ Rt = Some Rr →
  heap σ !! blob_ ct = Some (as_column c) → length c = 3 →
  point_attr_ (self σ) !! "points" = Some p →
  heap σ !! blob_ p = Some P →
  shape_ p = [length P; 3] → rows_of_width 3 P →
  blob_ Rt ≠ blob_ p →
  (∀ nt, point_attr_ (self σ) !! "normals" = Some nt →
     blob_ nt ≠ blob_ p ∧
     ∃ Nr, heap σ !! blob_ nt = Some Nr ∧ shape_ nt = [length Nr; 3]
           ∧ rows_of_width 3 Nr) →
  let h1 := <[blob_ p := map (λ q, vsub q c) P]> (heap σ) in
  let new_points := {| shape_ := [length P; 3]; blob_ := length (heap σ);
                       tensor_device := device_ (self σ) |} in
  Rotate Rt ct σ =
    (Ok (),
     match point_attr_ (self σ) !! "normals" with
     | Some nt =>
         let Nr := default [] (heap σ !! blob_ nt) in
         {| heap := h1 ++ [map (rotated Rr c) P] ++ [map (matvec Rr) Nr];
            self := {| device_ := device_ (self σ);
                       point_attr_ :=
                         <["normals" :=
                             {| shape_ := [length Nr; 3];
                                blob_ := S (length (heap σ));
                                tensor_device := device_ (self σ) |}]>
                         (<["points" := new_points]> (point_attr_ (self σ))) |} |}
     | None =>
         {| heap := h1 ++ [map (rotated Rr c) P];
            self := {| device_ := device_ (self σ);
                       point_attr_ :=
                         <["points" := new_points]> (point_attr_ (self σ)) |} |}
     end).
Proof.
  intros [HsR HdR] [Hs Hd] HR Hc Hlen Hp HP Hshape Hw HneR Hnormals h1 new_points.
  assert (blob_ ct ≠ blob_ p) as Hne by (by eapply vector_blob_distinct).
  assert (blob_ p < length (heap σ)) as Hlt by (by eapply lookup_lt_Some).
  pose proof (vsub_width P c Hw Hlen) as Hw1.
  unfold Rotate. run_monad.
  rewrite (AssertShape_ok _ _ HsR), (AssertDevice_ok _ _ HdR). run_monad.
  rewrite (AssertShape_ok _ _ Hs), (AssertDevice_ok _ _ Hd). run_monad.
  rewrite Hp. run_monad. rewrite Hc, HP. cbn.
  rewrite !list_lookup_insert_eq by done.
  rewrite !list_lookup_insert_ne by done. rewrite Hc, HR. cbn.
  change {| vshape := shape_ p; vrows := P |} with (tval p P).
  rewrite (broadcast_rows f_sub p P (length P) _ c) by done.
  change (map (λ q, zip_with f_sub q c) P) with (map (λ q, vsub q c) P).
  unfold GetShape in HsR, Hs.
  rewrite (T_Matmul_T {| vshape := shape_ Rt; vrows := Rr |}
             {| vshape := shape_ p; vrows := map (λ q, vsub q c) P |} 3 3);
    [|done|by cbn; rewrite List.length_map|done].
  cbn [vrows].
  rewrite (broadcast_matrix_vector f_add _
             {| vshape := shape_ ct; vrows := as_column c |}
             (length (map (λ q, vsub q c) P)) 3 3 c) by done.
  cbn [vshape vrows]. rewrite !map_map, List.length_map, length_insert.
  change (map (λ x, zip_with f_add (matvec Rr (vsub x c)) c) P)
    with (map (rotated Rr c) P).
  rewrite lookup_insert_ne by done.
  destruct (point_attr_ (self σ) !! "normals") as [nt|] eqn:Hnt; run_monad.
  - destruct (Hnormals nt eq_refl) as (Hnb & Nr & HNr & Hnshape & Hnw).
    rewrite lookup_insert_ne by done. rewrite Hnt. run_monad.
    assert (blob_ nt < length (heap σ)) as Hlt' by (by eapply lookup_lt_Some).
    assert (blob_ Rt < length (heap σ)) as HltR by (by eapply lookup_lt_Some).
    rewrite !lookup_app_l by (by rewrite length_insert).
    rewrite !list_lookup_insert_ne by done. rewrite HNr, HR. cbn.
    rewrite (T_Matmul_T {| vshape := shape_ Rt; vrows := Rr |}
               {| vshape := shape_ nt; vrows := Nr |} 3 3) by done.
    cbn [vshape vrows]. rewrite length_app, length_insert. cbn [length].
    rewrite <- app_assoc. cbn [app].
    by replace (length (heap σ) + 1) with (S (length (heap σ))) by lia.
  - done.
Qed.

(** X4.  Rotate(R, center) on a bundle with N x 3 points, where R and
    the normals do not share the storage of the points: every point p
    becomes R·(p - center) + center, normals when present become R·n and
    when absent stay absent, and R and center hold what they held. *)
Theorem Rotate_points_and_normals σ (Rt ct p : Tensor) Rr P c :
  arg_ok σ Rt [3; 3] → arg_ok σ ct [3] →
  heap σ !! blob_ Rt = Some Rr →
  heap σ !! blob_ ct = Some (as_column c) → length c = 3 →
  point_attr_ (self σ) !! "points" = Some p →
  heap σ !! blob_ p = Some P →
  shape_ p = [length P; 3] → rows_of_width 3 P →
  blob_ Rt ≠ blob_ p →
  (∀ nt, point_attr_ (self σ) !! "normals" = Some nt →
     blob_ nt ≠ blob_ p ∧
     ∃ Nr, heap σ !! blob_ nt = Some Nr ∧ shape_ nt = [length Nr; 3]
           ∧ rows_of_width 3 Nr) →
  ∃ σ', Rotate Rt ct σ = (Ok (), σ')
    ∧ attr_rows σ' "points" = Some (map (rotated Rr c) P)
    ∧ (∀ Nr, attr_rows σ "normals" = Some Nr →
         attr_rows σ' "normals" = Some (map (matvec Rr) Nr))
    ∧ (point_attr_ (self σ) !! "normals" = None →
         point_attr_ (self σ') !! "normals" = None)
    ∧ heap σ' !! blob_ Rt = Some Rr
    ∧ heap σ' !! blob_ ct = Some (as_column c).
Proof.
  intros HargR Harg HR Hc Hlen Hp HP Hshape Hw HneR Hnormals.
  assert (blob_ ct ≠ blob_ p) as Hne by (by eapply vector_blob_distinct).
  assert (blob_ Rt < length (heap σ)) as HltR by (by eapply lookup_lt_Some).
  assert (blob_ ct < length (heap σ)) as Hltc by (by eapply lookup_lt_Some).
  eexists. split; [by apply (Rotate_state σ Rt ct p Rr P c)|].
  unfold attr_rows.
  destruct (point_attr_ (self σ) !! "normals") as [nt|] eqn:Hnt;
    cbn [heap self point_attr_].
  - destruct (Hnormals nt eq_refl) as (Hnb & Nr & HNr & _).
    rewrite lookup_insert_ne by done. rewrite !lookup_insert_eq.
    cbn [blob_]. rewrite HNr. cbn [default].
    split; [|split; [|split; [done|]]].
    + rewrite lookup_app_r by (rewrite length_insert; lia).
      rewrite length_insert. by replace (_ - _) with 0 by lia.
    + intros Nr' [= <-].
      rewrite lookup_app_r by (rewrite length_insert; lia).
      rewrite length_insert. by replace (_ - _) with 1 by lia.
    + rewrite !lookup_app_l by (by rewrite length_insert).
      by rewrite !list_lookup_insert_ne by done.
  - rewrite lookup_insert_eq. cbn [blob_].
    rewrite lookup_insert_ne by done. rewrite Hnt.
    split; [|split; [done|split; [done|]]].
    + rewrite lookup_app_r by (rewrite length_insert; lia).
      rewrite length_insert. by replace (_ - _) with 0 by lia.
    + rewrite !lookup_app_l by (by rewrite length_insert).
      by rewrite !list_lookup_insert_ne by done.
Qed.

(** X5.  Rotate subtracts the center in place before it multiplies: after
    the call the storage the points had before holds p - center, and the
    bundle refers to other storage for its points. *)
Theorem Rotate_shifts_previous_storage σ (Rt ct p : Tensor) Rr P c :
  arg_ok σ Rt [3; 3] → arg_ok σ ct [3] →
  heap σ !! blob_ Rt = Some Rr →
  heap σ !! blob_ ct = Some (as_column c) → length c = 3 →
  point_attr_ (self σ) !! "points" = Some p →
  heap σ !! blob_ p = Some P →
  shape_ p = [length P; 3] → rows_of_width 3 P →
  blob_ Rt ≠ blob_ p →
  (∀ nt, point_attr_ (self σ) !! "normals" = Some nt →
     blob_ nt ≠ blob_ p ∧
     ∃ Nr, heap σ !! blob_ nt = Some Nr ∧ shape_ nt = [length Nr; 3]
           ∧ rows_of_width 3 Nr) →
  ∃ σ' p', Rotate Rt ct σ = (Ok (), σ')
    ∧ heap σ' !! blob_ p = Some (map (λ q, vsub q c) P)
    ∧ point_attr_ (self σ') !! "points" = Some p'
    ∧ blob_ p' ≠ blob_ p
    ∧ heap σ' !! blob_ p' = Some (map (rotated Rr c) P).
Proof.
  intros HargR Harg HR Hc Hlen Hp HP Hshape Hw HneR Hnormals.
  assert (blob_ p < length (heap σ)) as Hlt by (by eapply lookup_lt_Some).
  exists (Rotate Rt ct σ).2,
    {| shape_ := [length P; 3]; blob_ := length (heap σ);
       tensor_device := device_ (self σ) |}.
  rewrite (Rotate_state σ Rt ct p Rr P c) by done. cbn [snd blob_].
  split; [done|].
  destruct (point_attr_ (self σ) !! "normals") as [nt|] eqn:Hnt;
    cbn [heap self point_attr_].
  - rewrite lookup_insert_ne by done. rewrite lookup_insert_eq.
    rewrite lookup_app_l by (by rewrite length_insert).
    rewrite list_lookup_insert_eq by done.
    split; [done|]. split; [done|]. split; [lia|].
    apply list_lookup_middle. by rewrite length_insert.
  - rewrite lookup_insert_eq.
    rewrite lookup_app_l by (by rewrite length_insert).
    rewrite list_lookup_insert_eq by done.
    split; [done|]. split; [done|]. split; [lia|].
    apply list_lookup_middle. by rewrite length_insert.
Qed.

End Rotate.

(** X4 on the points (1,0,0), (3,2,0) with normals, for a quarter turn
    about the axis through (1,2,3) parallel to z. *)
Lemma Rotate_points_and_normals_witness :
  ∃ σ', Rotate rotation_Qc vector_Qc cloud_Rot = (Ok (), σ')
    ∧ attr_rows σ' "points" =
        Some [[q 3; q 2; q 0]; [q 1; q 4; q 0]]
    ∧ attr_rows σ' "normals" =
        Some [[q 0; q 0; q 1]; [q 0; q 1; q 0]].
Proof.
  destruct (Rotate_points_and_normals cloud_Rot rotation_Qc vector_Qc
              {| shape_ := [2; 3]; blob_ := 0; tensor_device := CPU 0 |}
              [[q 0; q (-1); q 0]; [q 1; q 0; q 0]; [q 0; q 0; q 1]]
              [[q 1; q 0; q 0]; [q 3; q 2; q 0]] [q 1; q 2; q 3])
    as (σ' & Hrun & Hpoints & Hnormals & _).
  { split; reflexivity. }
  { split; reflexivity. }
  { reflexivity. }
  { reflexivity. }
  { reflexivity. }
  { reflexivity. }
  { reflexivity. }
  { reflexivity. }
  { repeat constructor. }
  { discriminate. }
  { intros nt Hnt.
    assert (nt = {| shape_ := [2; 3]; blob_ := 1; tensor_device := CPU 0 |})
      as -> by (vm_compute in Hnt; congruence).
    split; [discriminate|]. exists [[q 0; q 0; q 1]; [q 1; q 0; q 0]].
    split; [reflexivity|]. split; [reflexivity|repeat constructor]. }
  exists σ'. split; [exact Hrun|]. split.
  - rewrite Hpoints. reflexivity.
  - rewrite (Hnormals [[q 0; q 0; q 1]; [q 1; q 0; q 0]]); reflexivity.
Defined.

(** X5 on the same input: blob 0 is left holding the points minus
    (1,2,3). *)
Lemma Rotate_shifts_previous_storage_witness :
  ∃ σ' p', Rotate rotation_Qc vector_Qc cloud_Rot = (Ok (), σ')
    ∧ heap σ' !! 0 = Some [[q 0; q (-2); q (-3)]; [q 2; q 0; q (-3)]]
    ∧ point_attr_ (self σ') !! "points" = Some p'
    ∧ blob_ p' ≠ 0
    ∧ heap σ' !! blob_ p' = Some [[q 3; q 2; q 0]; [q 1; q 4; q 0]].
Proof.
  destruct (Rotate_shifts_previous_storage cloud_Rot rotation_Qc vector_Qc
              {| shape_ := [2; 3]; blob_ := 0; tensor_device := CPU 0 |}
              [[q 0; q (-1); q 0]; [q 1; q 0; q 0]; [q 0; q 0; q 1]]
              [[q 1; q 0; q 0]; [q 3; q 2; q 0]] [q 1; q 2; q 3])
    as (σ' & p' & Hrun & Hold & Hp' & Hblob & Hnew).
  { split; reflexivity. }
  { split; reflexivity. }
  { reflexivity. }
  { reflexivity. }
  { reflexivity. }
  { reflexivity. }
  { reflexivity. }
  { reflexivity. }
  { repeat constructor. }
  { discriminate. }
  { intros nt Hnt.
    assert (nt = {| shape_ := [2; 3]; blob_ := 1; tensor_device := CPU 0 |})
      as -> by (vm_compute in Hnt; congruence).
    split; [discriminate|]. exists [[q 0; q 0; q 1]; [q 1; q 0; q 0]].
    split; [reflexivity|]. split; [reflexivity|repeat constructor]. }
  exists σ', p'. split; [exact Hrun|]. cbn [blob_] in Hold.
  split; [rewrite Hold; reflexivity|]. split; [exact Hp'|].
  split; [exact Hblob|]. rewrite Hnew. reflexivity.
Defined.
(** ** Transform: state, frame and composition *)

Lemma lookup_fresh_0 {A} (h : list A) (n : nat) x news :
  length h = n → (h ++ x :: news) !! n = Some x.
Proof. intros <-. by apply list_lookup_middle. Qed.

Lemma lookup_fresh_1 {A} (h : list A) (n : nat) x y news :
  length h = n → (h ++ x :: y :: news) !! S n = Some y.
Proof.
  intros <-. rewrite (cons_middle x), app_assoc.
  apply list_lookup_middle. rewrite length_app. cbn. lia.
Qed.

Section TransformState.
Context {F : Type} `{Scalar F}.
Implicit Types (σ : World F) (P : list (list F)).

(** The state [Transform] leaves: the heap is extended by the blobs of the
    new points and normals, and the two entries of the bundle are replaced. *)
Lemma Transform_state σ (m p : Tensor) Mrows P :
  arg_ok σ m [4; 4] →
  heap σ !! blob_ m = Some Mrows → rows_of_width 4 Mrows →
  point_attr_ (self σ) !! "points" = Some p →
  heap σ !! blob_ p = Some P →
  shape_ p = [length P; 3] → rows_of_width 3 P →
  (∀ nt, point_attr_ (self σ) !! "normals" = Some nt →
     ∃ Nr, heap σ !! blob_ nt = Some Nr ∧ shape_ nt = [length Nr; 3]
           ∧ rows_of_width 3 Nr) →
  let Rb := rotation_block Mrows in
  let new_points := {| shape_ := [length P; 3]; blob_ := length (heap σ);
                       tensor_device := device_ (self σ) |} in
  Transform m σ =
    (Ok (),
     match point_attr_ (self σ) !! "normals" with
     | Some nt =>
         let Nr := default [] (heap σ !! blob_ nt) in
         {| heap := heap σ ++ [map (affine Rb (translation_block Mrows)) P]
                           ++ [map (matvec Rb) Nr];
            self := {| device_ := device_ (self σ);
                       point_attr_ :=
                         <["normals" :=
                             {| shape_ := [length Nr; 3];
                                blob_ := S (length (heap σ));
                                tensor_device := device_ (self σ) |}]>
                         (<["points" := new_points]> (point_attr_ (self σ))) |} |}
     | None =>
         {| heap := heap σ ++ [map (affine Rb (translation_block Mrows)) P];
            self := {| device_ := device_ (self σ);
                       point_attr_ :=
                         <["points" := new_points]> (point_attr_ (self σ)) |} |}
     end).
Proof.
  intros [Hs Hd] HM HwM Hp HP Hshape Hw Hnormals Rb new_points.
  destruct (translation_column Mrows HwM) as [Hcol Hconcat].
  unfold Transform. run_monad.
  rewrite (AssertShape_ok _ _ Hs), (AssertDevice_ok _ _ Hd). run_monad.
  rewrite Hp, HM, HP. run_monad.
  change {| vshape := shape_ m; vrows := Mrows |} with (tval m Mrows).
  rewrite (Slice_rotation m Mrows Hs), (Slice_translation m Mrows Hs).
  rewrite (T_Matmul_T_Add _ {| vshape := shape_ p; vrows := P |} _ 3 3)
    by done.
  cbn [vshape vrows]. rewrite Hconcat.
  rewrite lookup_insert_ne by done.
  destruct (point_attr_ (self σ) !! "normals") as [nt|] eqn:Hnt; run_monad.
  - destruct (Hnormals nt eq_refl) as (Nr & HNr & Hnshape & Hnw).
    rewrite lookup_insert_ne by done. rewrite Hnt. run_monad.
    assert (blob_ nt < length (heap σ)) as Hlt' by (by eapply lookup_lt_Some).
    rewrite lookup_app_l by done. rewrite HNr. cbn.
    rewrite (T_Matmul_T _ {| vshape := shape_ nt; vrows := Nr |} 3 3) by done.
    cbn [vshape vrows]. rewrite length_app. cbn [length].
    rewrite <- app_assoc. cbn [app].
    by replace (length (heap σ) + 1) with (S (length (heap σ))) by lia.
  - done.
Qed.

End TransformState.

Section TransformFrame.
Context {F : Type} `{Scalar F}.
Implicit Types (σ : World F) (P : list (list F)).

(** X7.  Transform with a 4 x 4 matrix on the device of the bundle, on a
    bundle whose points and normals are N x 3 arrays on its device, succeeds
    and writes into no existing storage: the heap is only extended, the points (and the normals, which
    it does not create) refer to fresh blobs, the device and every other
    attribute are as before. *)
Theorem Transform_never_writes_in_place σ (m p : Tensor) Mrows :
  arg_ok σ m [4; 4] →
  heap σ !! blob_ m = Some Mrows → rows_of_width 4 Mrows → length Mrows = 4 →
  well_shaped σ →
  point_attr_ (self σ) !! "points" = Some p →
  ∃ σ' news p',
    Transform m σ = (Ok (), σ')
    ∧ heap σ' = heap σ ++ news
    ∧ (∀ b rows, heap σ !! b = Some rows → heap σ' !! b = Some rows)
    ∧ device_ (self σ') = device_ (self σ)
    ∧ point_attr_ (self σ') !! "points" = Some p'
    ∧ length (heap σ) ≤ blob_ p'
    ∧ (∀ nt', point_attr_ (self σ') !! "normals" = Some nt' →
         is_Some (point_attr_ (self σ) !! "normals")
         ∧ length (heap σ) ≤ blob_ nt')
    ∧ (∀ k, k ≠ "points" → k ≠ "normals" →
         point_attr_ (self σ') !! k = point_attr_ (self σ) !! k).
Proof.
  intros Harg HM HwM HlenM Hwf Hp.
  destruct (Hwf "points" p (or_introl eq_refl) Hp)
    as (_ & P & HP & Hshape & Hw).
  assert (∀ (news : list (list (list F))) b rows,
            heap σ !! b = Some rows → (heap σ ++ news) !! b = Some rows)
    as Hframe.
  { intros news b rows Hb. by apply lookup_app_l_Some. }
  exists (Transform m σ).2.
  rewrite (Transform_state σ m p Mrows P); [|done..|].
  2:{ intros nt Hnt. by destruct (Hwf "normals" nt (or_intror eq_refl) Hnt). }
  cbn [snd].
  destruct (point_attr_ (self σ) !! "normals") as [nt|] eqn:Hnt.
  - eexists [_; _], _. split; [done|]. cbn [heap self device_ point_attr_].
    split; [done|]. split; [apply Hframe|]. split; [done|].
    rewrite lookup_insert_ne by done. rewrite lookup_insert_eq.
    split; [done|]. cbn [blob_]. split; [done|].
    rewrite lookup_insert_eq. split.
    + intros nt' [= <-]. cbn [blob_]. split; [done|lia].
    + intros k Hk1 Hk2. by rewrite !lookup_insert_ne by done.
  - eexists [_], _. split; [done|]. cbn [heap self device_ point_attr_].
    split; [done|]. split; [apply Hframe|]. split; [done|].
    rewrite lookup_insert_eq. split; [done|]. cbn [blob_]. split; [done|].
    rewrite lookup_insert_ne by done. rewrite Hnt. split; [done|].
    intros k Hk1 Hk2. by rewrite lookup_insert_ne by done.
Qed.

End TransformFrame.

(** X7 on the points (1,0,0), (3,2,0) with normals: the four blobs of the
    input are a prefix of the heap after the call. *)
Lemma Transform_never_writes_in_place_witness :
  ∃ σ' news p',
    Transform matrix_Qc cloud_Qc = (Ok (), σ')
    ∧ heap σ' = heap cloud_Qc ++ news
    ∧ point_attr_ (self σ') !! "points" = Some p'
    ∧ 4 ≤ blob_ p'.
Proof.
  destruct (Transform_never_writes_in_place cloud_Qc matrix_Qc
              {| shape_ := [2; 3]; blob_ := 0; tensor_device := CPU 0 |}
              [[q 0; q (-1); q 0; q 10]; [q 1; q 0; q 0; q 20];
               [q 0; q 0; q 1; q 30]; [q 0; q 0; q 0; q 1]])
    as (σ' & news & p' & Hrun & Hheap & _ & _ & Hp' & Hfresh & _).
  { split; reflexivity. }
  { reflexivity. }
  { repeat constructor. }
  { reflexivity. }
  { intros key t [->| ->] Ht; vm_compute in Ht; injection Ht as <-;
      (split; [reflexivity|]); eexists;
      (split; [reflexivity|]); (split; [reflexivity|repeat constructor]). }
  { reflexivity. }
  exists σ', news, p'. split; [exact Hrun|]. split; [exact Hheap|].
  split; [exact Hp'|exact Hfresh].
Defined.

Section TransformTwice.
Context {F : Type} `{Scalar F}.
Implicit Types (σ : World F) (P : list (list F)).

Lemma matvec_width (R : list (list F)) P :
  length R = 3 → rows_of_width 3 (map (matvec R) P).
Proof.
  intros HR. unfold rows_of_width. apply Forall_map, Forall_true.
  intros p. unfold matvec. by rewrite List.length_map.
Qed.

Lemma affine_width (R : list (list F)) t P :
  length R = 3 → length t = 3 → rows_of_width 3 (map (affine R t) P).
Proof.
  intros HR Ht. unfold rows_of_width. apply Forall_map, Forall_true.
  intros p. unfold affine, vadd, matvec.
  rewrite length_zip_with, List.length_map. lia.
Qed.

Lemma blocks_length (Mrows : list (list F)) :
  length Mrows = 4 →
  length (rotation_block Mrows) = 3 ∧ length (translation_block Mrows) = 3.
Proof.
  intros HM. unfold rotation_block, translation_block.
  rewrite !List.length_map, length_take. lia.
Qed.

(** [Transform] keeps the bundle well formed: N x 3 points and normals, with
    the same N, the device and the rest of the heap as they were. *)
Lemma Transform_ok σ (m : Tensor) Mrows P No :
  arg_ok σ m [4; 4] →
  heap σ !! blob_ m = Some Mrows → rows_of_width 4 Mrows → length Mrows = 4 →
  cloud_ok σ P No →
  ∃ σ', Transform m σ = (Ok (), σ')
    ∧ cloud_ok σ' (map (affine (rotation_block Mrows) (translation_block Mrows)) P)
        (map (matvec (rotation_block Mrows)) <$> No)
    ∧ device_ (self σ') = device_ (self σ)
    ∧ ∀ b rows, heap σ !! b = Some rows → heap σ' !! b = Some rows.
Proof.
  intros Harg HM HwM HlenM [(p & Hp & HP & Hshape & Hw) Hn].
  destruct (blocks_length Mrows HlenM) as [HlenR Hlent].
  exists (Transform m σ).2.
  rewrite (Transform_state σ m p Mrows P); [|done..|].
  2:{ intros nt Hnt. destruct No as [Nr|]; [|congruence].
      destruct Hn as (nt' & Hnt' & ? & ? & ?). exists Nr.
      rewrite Hnt in Hnt'. by injection Hnt' as <-. }
  cbn [snd]. split; [done|].
  destruct No as [Nr|].
  - destruct Hn as (nt & Hnt & HNr & Hnshape & Hnw). rewrite Hnt, HNr.
    unfold cloud_ok, holds_Nx3. cbn.
    split; [|split; [done|intros b rows Hb; by apply lookup_app_l_Some]].
    split.
    + eexists. rewrite lookup_insert_ne by done. rewrite lookup_insert_eq.
      split; [done|]. cbn [blob_ shape_].
      rewrite lookup_fresh_0 by done. rewrite List.length_map.
      split; [done|]. split; [done|]. by apply affine_width.
    + eexists. rewrite lookup_insert_eq.
      split; [done|]. cbn [blob_ shape_].
      rewrite lookup_fresh_1 by done. rewrite List.length_map.
      split; [done|]. split; [done|]. by apply matvec_width.
  - rewrite Hn.
    unfold cloud_ok, holds_Nx3. cbn.
    split; [|split; [done|intros b rows Hb; by apply lookup_app_l_Some]].
    split.
    + eexists. rewrite lookup_insert_eq.
      split; [done|]. cbn [blob_ shape_].
      rewrite lookup_fresh_0 by done. rewrite List.length_map.
      split; [done|]. split; [done|]. by apply affine_width.
    + by rewrite lookup_insert_ne by done.
Qed.

(** X8.  Transform keeps a bundle of N x 3 points and normals well formed,
    so two calls compose: after Transform(M1) then Transform(M2) every point
    p is R2·(R1·p + t1) + t2 and every normal n is R2·(R1·n), in N x 3
    arrays with the same N, and what the heap held is still there. *)
Theorem Transform_twice σ (m1 m2 : Tensor) M1 M2 P No :
  arg_ok σ m1 [4; 4] → arg_ok σ m2 [4; 4] →
  heap σ !! blob_ m1 = Some M1 → rows_of_width 4 M1 → length M1 = 4 →
  heap σ !! blob_ m2 = Some M2 → rows_of_width 4 M2 → length M2 = 4 →
  cloud_ok σ P No →
  ∃ σ1 σ2,
    Transform m1 σ = (Ok (), σ1)
    ∧ Transform m2 σ1 = (Ok (), σ2)
    ∧ cloud_ok σ2
        (map (λ x, affine (rotation_block M2) (translation_block M2)
                     (affine (rotation_block M1) (translation_block M1) x)) P)
        (map (λ n, matvec (rotation_block M2) (matvec (rotation_block M1) n))
           <$> No)
    ∧ (∀ b rows, heap σ !! b = Some rows → heap σ2 !! b = Some rows).
Proof.
  intros Harg1 Harg2 HM1 Hw1 Hl1 HM2 Hw2 Hl2 Hok.
  destruct (Transform_ok σ m1 M1 P No) as (σ1 & Hrun1 & Hok1 & Hd1 & Hf1);
    try done.
  destruct (Transform_ok σ1 m2 M2 _ _ ltac:(by destruct Harg2; split; [|congruence])
              (Hf1 _ _ HM2) Hw2 Hl2 Hok1)
    as (σ2 & Hrun2 & Hok2 & _ & Hf2).
  exists σ1, σ2. split; [done|]. split; [done|]. split.
  - rewrite map_map in Hok2. destruct No as [Nr|]; [|done].
    cbn [fmap option_fmap option_map] in *. by rewrite map_map in Hok2.
  - intros b rows Hb. by apply Hf2, Hf1.
Qed.

End TransformTwice.

(** X8 on the same input: the quarter turn about z followed by the shift
    (10, 20, 30), twice. *)
Lemma Transform_twice_witness :
  ∃ σ1 σ2,
    Transform matrix_Qc cloud_Qc = (Ok (), σ1)
    ∧ Transform matrix_Qc σ1 = (Ok (), σ2)
    ∧ attr_rows σ2 "points" =
        Some [[q (-11); q 30; q 60]; [q (-13); q 28; q 60]]
    ∧ attr_rows σ2 "normals" =
        Some [[q 0; q 0; q 1]; [q (-1); q 0; q 0]].
Proof.
  destruct (Transform_twice cloud_Qc matrix_Qc matrix_Qc
              [[q 0; q (-1); q 0; q 10]; [q 1; q 0; q 0; q 20];
               [q 0; q 0; q 1; q 30]; [q 0; q 0; q 0; q 1]]
              [[q 0; q (-1); q 0; q 10]; [q 1; q 0; q 0; q 20];
               [q 0; q 0; q 1; q 30]; [q 0; q 0; q 0; q 1]]
              [[q 1; q 0; q 0]; [q 3; q 2; q 0]]
              (Some [[q 0; q 0; q 1]; [q 1; q 0; q 0]]))
    as (σ1 & σ2 & Hrun1 & Hrun2 & [Hpoints Hnormals] & _).
  { split; reflexivity. }
  { split; reflexivity. }
  { reflexivity. }
  { repeat constructor. }
  { reflexivity. }
  { reflexivity. }
  { repeat constructor. }
  { reflexivity. }
  { split.
    - exists {| shape_ := [2; 3]; blob_ := 0; tensor_device := CPU 0 |}.
      split; [reflexivity|]. split; [reflexivity|].
      split; [reflexivity|repeat constructor].
    - exists {| shape_ := [2; 3]; blob_ := 1; tensor_device := CPU 0 |}.
      split; [reflexivity|]. split; [reflexivity|].
      split; [reflexivity|repeat constructor]. }
  exists σ1, σ2. split; [exact Hrun1|]. split; [exact Hrun2|].
  destruct Hpoints as (p & Hp & HP & _).
  destruct Hnormals as (nt & Hnt & HN & _).
  unfold attr_rows. rewrite Hp, HP, Hnt, HN. split; reflexivity.
Defined.
(** ** Translate: repeated calls *)

Section TranslateTwice.
Context {F : Type} `{Scalar F}.
Implicit Types (σ : World F) (P : list (list F)) (v d : list F).

Lemma vadd_width P d :
  rows_of_width 3 P → length d = 3 →
  rows_of_width 3 (map (λ q, vadd q d) P).
Proof.
  intros HP Hd. unfold rows_of_width. apply Forall_map.
  eapply Forall_impl; [exact HP|]. intros p Hp. unfold vadd.
  rewrite length_zip_with. cbn in *. lia.
Qed.

Lemma vsub_length v d : length v = 3 → length d = 3 → length (vsub v d) = 3.
Proof. intros Hv Hd. unfold vsub. rewrite length_zip_with. lia. Qed.

Lemma centroid_length P : length (centroid P) = 3.
Proof. unfold centroid. by rewrite List.length_map, length_seq. Qed.

(** X9.  Translate(tr, relative = false) overwrites tr, so a second call
    with the same tensor does not aim at v: whatever the element type, the
    first call adds d1 = v - centroid(P) to every point and leaves d1 in tr;
    the second takes d1 for its target, adds d2 = d1 - centroid(P1) to the
    points P1 it finds, and leaves d2 in tr. *)
Theorem Translate_twice_same_tensor σ (tr p : Tensor) P v :
  arg_ok σ tr [3] →
  heap σ !! blob_ tr = Some (as_column v) → length v = 3 →
  point_attr_ (self σ) !! "points" = Some p →
  heap σ !! blob_ p = Some P →
  shape_ p = [length P; 3] → rows_of_width 3 P →
  ∃ σ1 σ2 d1 P1 d2,
    d1 = vsub v (centroid P)
    ∧ P1 = map (λ q, vadd q d1) P
    ∧ d2 = vsub d1 (centroid P1)
    ∧ Translate tr false σ = (Ok (), σ1)
    ∧ attr_rows σ1 "points" = Some P1
    ∧ heap σ1 !! blob_ tr = Some (as_column d1)
    ∧ Translate tr false σ1 = (Ok (), σ2)
    ∧ attr_rows σ2 "points" = Some (map (λ q, vadd q d2) P1)
    ∧ heap σ2 !! blob_ tr = Some (as_column d2).
Proof.
  intros Harg Hv Hlen Hp HP Hshape Hw.
  assert (blob_ tr ≠ blob_ p) as Hnb by (by eapply vector_blob_distinct).
  assert (blob_ p < length (heap σ)) as Hlt by (by eapply lookup_lt_Some).
  assert (blob_ tr < length (heap σ)) as Hlt' by (by eapply lookup_lt_Some).
  set (d1 := vsub v (centroid P)).
  set (P1 := map (λ q, vadd q d1) P).
  assert (length d1 = 3) as Hd1
    by (apply vsub_length; [done|apply centroid_length]).
  pose proof (vadd_width P d1 Hw Hd1) as Hw1. fold P1 in Hw1.
  assert (shape_ p = [length P1; 3]) as Hshape1
    by (unfold P1; by rewrite List.length_map).
  set (σ1 := {| heap := <[blob_ p := P1]>
                          (<[blob_ tr := as_column d1]> (heap σ));
                self := self σ |}).
  assert (heap σ1 !! blob_ p = Some P1) as HP1.
  { unfold σ1. cbn [heap]. apply list_lookup_insert_eq.
    by rewrite length_insert. }
  assert (heap σ1 !! blob_ tr = Some (as_column d1)) as Hv1.
  { unfold σ1. cbn [heap]. rewrite list_lookup_insert_ne by done.
    by apply list_lookup_insert_eq. }
  set (d2 := vsub d1 (centroid P1)).
  set (P2 := map (λ q, vadd q d2) P1).
  set (σ2 := {| heap := <[blob_ p := P2]>
                          (<[blob_ tr := as_column d2]> (heap σ1));
                self := self σ |}).
  exists σ1, σ2, d1, P1, d2.
  split; [done|]. split; [done|]. split; [done|].
  split; [by apply (Translate_state σ tr p false P v)|].
  split; [unfold attr_rows; cbn [self σ1]; by rewrite Hp|].
  split; [done|].
  split; [by apply (Translate_state σ1 tr p false P1 d1)|].
  split.
  - unfold attr_rows. cbn [self σ2 heap]. rewrite Hp.
    apply list_lookup_insert_eq. rewrite length_insert.
    by eapply lookup_lt_Some.
  - unfold σ2. cbn [heap]. rewrite list_lookup_insert_ne by done.
    apply list_lookup_insert_eq. by eapply lookup_lt_Some.
Qed.

(** X10.  Translate with relative = true leaves its argument alone, and
    calls compose, whatever the element type: after Translate(a, true) then
    Translate(b, true) every point p is (p + a) + b, in the storage the
    points had, and the handles of the bundle and every other blob, the two
    arguments among them, are as before. *)
Theorem Translate_relative_twice σ (a b p : Tensor) P va vb :
  arg_ok σ a [3] → arg_ok σ b [3] →
  heap σ !! blob_ a = Some (as_column va) → length va = 3 →
  heap σ !! blob_ b = Some (as_column vb) → length vb = 3 →
  point_attr_ (self σ) !! "points" = Some p →
  heap σ !! blob_ p = Some P →
  shape_ p = [length P; 3] → rows_of_width 3 P →
  ∃ σ1 σ2,
    Translate a true σ = (Ok (), σ1)
    ∧ Translate b true σ1 = (Ok (), σ2)
    ∧ self σ2 = self σ
    ∧ attr_rows σ2 "points" = Some (map (λ q, vadd (vadd q va) vb) P)
    ∧ ∀ k, k ≠ blob_ p → heap σ2 !! k = heap σ !! k.
Proof.
  intros Ha Hb Hva Hlena Hvb Hlenb Hp HP Hshape Hw.
  assert (blob_ b ≠ blob_ p) as Hnb by (by eapply vector_blob_distinct).
  assert (blob_ p < length (heap σ)) as Hlt by (by eapply lookup_lt_Some).
  set (P1 := map (λ q, vadd q va) P).
  set (σ1 := {| heap := <[blob_ p := P1]> (heap σ); self := self σ |}).
  assert (Translate a true σ = (Ok (), σ1)) as Hrun1.
  { rewrite (Translate_state σ a p true P va) by done.
    by rewrite (list_insert_id _ _ _ Hva). }
  assert (heap σ1 !! blob_ p = Some P1) as HP1
    by (by apply list_lookup_insert_eq).
  assert (heap σ1 !! blob_ b = Some (as_column vb)) as Hvb1.
  { unfold σ1. cbn [heap]. by rewrite list_lookup_insert_ne. }
  assert (shape_ p = [length P1; 3]) as Hshape1
    by (unfold P1; by rewrite List.length_map).
  pose proof (vadd_width P va Hw Hlena) as Hw1. fold P1 in Hw1.
  exists σ1, {| heap := <[blob_ p := map (λ q, vadd q vb) P1]> (heap σ1);
               self := self σ1 |}.
  split; [done|]. split.
  { rewrite (Translate_state σ1 b p true P1 vb) by done.
    by rewrite (list_insert_id _ _ _ Hvb1). }
  split; [done|]. unfold σ1. cbn [heap self]. split.
  - unfold attr_rows. cbn [heap self]. rewrite Hp.
    rewrite list_lookup_insert_eq by (by rewrite length_insert).
    unfold P1. by rewrite map_map.
  - intros k Hk. by rewrite !list_lookup_insert_ne.
Qed.

End TranslateTwice.

(** X9 on the points (1,0,0), (3,2,0) and the target (1,2,3): the first
    call adds (-1,1,3); the second, which finds (-1,1,3) in the tensor and
    the points centered at (1,2,3), adds (-2,-1,0). *)
Lemma Translate_twice_same_tensor_witness :
  ∃ σ1 σ2,
    Translate vector_Qc false cloud_Qc = (Ok (), σ1)
    ∧ attr_rows σ1 "points" = Some [[q 0; q 1; q 3]; [q 2; q 3; q 3]]
    ∧ heap σ1 !! 2 = Some [[q (-1)]; [q 1]; [q 3]]
    ∧ Translate vector_Qc false σ1 = (Ok (), σ2)
    ∧ attr_rows σ2 "points" = Some [[q (-2); q 0; q 3]; [q 0; q 2; q 3]]
    ∧ heap σ2 !! 2 = Some [[q (-2)]; [q (-1)]; [q 0]].
Proof.
  destruct (Translate_twice_same_tensor cloud_Qc vector_Qc
              {| shape_ := [2; 3]; blob_ := 0; tensor_device := CPU 0 |}
              [[q 1; q 0; q 0]; [q 3; q 2; q 0]] [q 1; q 2; q 3])
    as (σ1 & σ2 & d1 & P1 & d2 & -> & -> & -> & Hrun1 & Hrows1 & Htr1
        & Hrun2 & Hrows2 & Htr2).
  { split; reflexivity. }
  { reflexivity. }
  { reflexivity. }
  { reflexivity. }
  { reflexivity. }
  { reflexivity. }
  { repeat constructor. }
  exists σ1, σ2. cbn [blob_ vector_Qc] in Htr1, Htr2.
  split; [exact Hrun1|]. split; [rewrite Hrows1; reflexivity|].
  split; [rewrite Htr1; reflexivity|]. split; [exact Hrun2|].
  split; [rewrite Hrows2; reflexivity|]. rewrite Htr2. reflexivity.
Defined.

(** X10 in binary64 on the point (0.1,0,0), shifted by (0.2,0,0) and then
    by (-0.2,0,0): the point ends at (0.1 + 0.2) - 0.2, which is
    0.10000000000000003. *)
Lemma Translate_relative_twice_witness :
  ∃ σ1 σ2,
    Translate shift_there true cloud_shift = (Ok (), σ1)
    ∧ Translate shift_back true σ1 = (Ok (), σ2)
    ∧ attr_rows σ2 "points" =
        Some [[S754_finite false 7205759403792796 (-56); b64 0; b64 0]]
    ∧ heap σ2 !! 1 = heap cloud_shift !! 1
    ∧ heap σ2 !! 2 = heap cloud_shift !! 2.
Proof.
  destruct (Translate_relative_twice cloud_shift shift_there shift_back
              {| shape_ := [1; 3]; blob_ := 0; tensor_device := CPU 0 |}
              [[b64_lit 1 10; b64 0; b64 0]]
              [b64_lit 2 10; b64 0; b64 0] [b64_lit (-2) 10; b64 0; b64 0])
    as (σ1 & σ2 & Hrun1 & Hrun2 & _ & Hrows & Hframe).
  { split; reflexivity. }
  { split; reflexivity. }
  { reflexivity. }
  { reflexivity. }
  { reflexivity. }
  { reflexivity. }
  { reflexivity. }
  { reflexivity. }
  { reflexivity. }
  { repeat constructor. }
  exists σ1, σ2. split; [exact Hrun1|]. split; [exact Hrun2|].
  split; [rewrite Hrows; vm_compute; reflexivity|].
  split; apply Hframe; discriminate.
Defined.

(** ** Voxel down-sampling: storage, separated points, a second run *)

Section VoxelStorage.
Context {F : Type} `{Scalar F} (hashmap : Hashmap).
Implicit Types (σ : World F) (P : list (list F)) (cells : list (list Z)).

Lemma own_storage_mono lo hi hi' (m : gmap string Tensor) :
  hi ≤ hi' → own_storage lo hi m → own_storage lo hi' m.
Proof.
  intros Hle [Hrange Hinj]. split; [|done].
  intros k t Hk. specialize (Hrange k t Hk). lia.
Qed.

Lemma own_storage_emplace lo hi key (t : Tensor) (m : gmap string Tensor) :
  lo ≤ hi → blob_ t = hi → own_storage lo hi m →
  own_storage lo (S hi) (emplace key t m).
Proof.
  intros Hlo Hb [Hrange Hinj]. unfold emplace.
  destruct (m !! key) as [t0|] eqn:Hkey.
  { apply (own_storage_mono lo hi); [lia|done]. }
  split.
  - intros k t' [[-> <-]|[_ Hk]]%lookup_insert_Some; [lia|].
    specialize (Hrange k t' Hk). lia.
  - intros k1 k2 t1 t2 [[<- <-]|[Hne1 Hk1]]%lookup_insert_Some
      [[<- <-]|[Hne2 Hk2]]%lookup_insert_Some Heq; try done.
    + specialize (Hrange k2 t2 Hk2). lia.
    + specialize (Hrange k1 t1 Hk1). lia.
    + by eapply Hinj.
Qed.

(** The gathering loop only adds handles to fresh blobs. *)
Lemma gather_attrs_fresh (masks : list bool) (kvs : list (string * Tensor)) :
  ∀ (acc : gmap string Tensor) σ acc' σ' (lo : nat),
  lo ≤ length (heap σ) →
  own_storage lo (length (heap σ)) acc →
  gather_attrs masks kvs acc σ = (Ok acc', σ') →
  own_storage lo (length (heap σ')) acc'
  ∧ self σ' = self σ
  ∧ ∃ news, heap σ' = heap σ ++ news.
Proof.
  induction kvs as [|[key t] kvs IH]; intros acc σ acc' σ' lo Hlo Hown Hrun.
  - cbn in Hrun. injection Hrun as <- <-. split; [done|]. split; [done|].
    exists []. by rewrite app_nil_r.
  - cbn [gather_attrs] in Hrun.
    destruct (decide (key ≠ "points")) as [Hne|Heq]; [|by eapply IH].
    revert Hrun. run_monad. intros Hrun.
    apply IH with (lo := lo) in Hrun as (Hown' & Hself & news & Hheap).
    + split; [done|]. split; [done|]. cbn [heap] in Hheap.
      exists (vrows (IndexGet masks
                {| vshape := shape_ t;
                   vrows := default [] (heap σ !! blob_ t) |}) :: news).
      by rewrite Hheap, <- app_assoc.
    + cbn [heap]. rewrite length_app. lia.
    + cbn [heap]. rewrite length_app. cbn [length].
      replace (length (heap σ) + 1) with (S (length (heap σ))) by lia.
      by apply own_storage_emplace.
Qed.

Lemma PointCloud_from_map_Ok (m : gmap string Tensor) (pc : PointCloud) :
  PointCloud_from_map m = Ok pc → point_attr_ pc = m.
Proof.
  unfold PointCloud_from_map, at_, count, AssertShapeCompatible.
  destruct (m !! "points") as [p|]; cbn; [|done].
  destruct (shape_compatible _ _); cbn; [|done]. by intros [= <-].
Qed.

(** Every array of a bundle that [VoxelDownSample] returns has a blob of its
    own, allocated by the call. *)
Lemma VoxelDownSample_fresh (voxel_size : F) σ out σ' :
  VoxelDownSample hashmap voxel_size σ = (Ok out, σ') →
  own_storage (length (heap σ)) (length (heap σ')) (point_attr_ out)
  ∧ self σ' = self σ
  ∧ ∃ news, heap σ' = heap σ ++ news.
Proof.
  unfold VoxelDownSample. run_monad.
  destruct (point_attr_ (self σ) !! "points") as [p|]; [|done]. run_monad.
  destruct (To_Int64 _) as [cells|]; [|done].
  match goal with
  | |- context [gather_attrs ?masks ?kvs ?acc ?s] =>
      destruct (gather_attrs masks kvs acc s) as [[acc'| |] σg] eqn:Hg;
        [|done|done]
  end.
  destruct (PointCloud_from_map acc') as [pc| |] eqn:Hpc; [|done|done].
  intros [= <- <-]. rewrite (PointCloud_from_map_Ok _ _ Hpc).
  apply gather_attrs_fresh with (lo := length (heap σ)) in Hg
    as (Hown & Hself & news & Hheap).
  - split; [done|]. split; [done|]. cbn [heap] in Hheap. eexists.
    by rewrite Hheap, <- app_assoc.
  - cbn [heap]. rewrite length_app. lia.
  - cbn [heap]. rewrite length_app. cbn [length].
    replace (length (heap σ) + 1) with (S (length (heap σ))) by lia.
    apply own_storage_emplace; [done|done|].
    split; [intros k t Hk|intros k1 k2 t1 t2 Hk]; by rewrite lookup_empty in Hk.
Qed.

(** X11.  The bundle VoxelDownSample returns shares no storage with the
    bundle it was called on: each of its arrays has a blob of its own,
    allocated by the call, and the call leaves the bundle and every blob
    that existed as they were. *)
Theorem VoxelDownSample_shares_no_storage
    σ (voxel_size : F) (p : Tensor) P cells :
  point_attr_ (self σ) !! "points" = Some p →
  heap σ !! blob_ p = Some P →
  shape_ p = [length P; 3] →
  row_aligned σ (length P) →
  quantize voxel_size P = Some cells →
  ∃ out σ',
    VoxelDownSample hashmap voxel_size σ = (Ok out, σ')
    ∧ (∀ k t, point_attr_ out !! k = Some t →
         length (heap σ) ≤ blob_ t < length (heap σ'))
    ∧ (∀ k t k' t', point_attr_ (self σ) !! k = Some t →
         point_attr_ out !! k' = Some t' → blob_ t' ≠ blob_ t)
    ∧ (∀ k1 k2 t1 t2, point_attr_ out !! k1 = Some t1 →
         point_attr_ out !! k2 = Some t2 → blob_ t1 = blob_ t2 → k1 = k2)
    ∧ self σ' = self σ
    ∧ (∀ b rows, heap σ !! b = Some rows → heap σ' !! b = Some rows).
Proof.
  intros Hp HP Hshape Hal Hq.
  destruct (VoxelDownSample_result hashmap σ voxel_size p P cells)
    as (out & σ' & Hrun & Hself & Hframe & _); try done.
  destruct (VoxelDownSample_fresh voxel_size σ out σ' Hrun)
    as ([Hrange Hinj] & _ & _).
  exists out, σ'. split; [done|]. split; [done|]. split; [|done].
  intros k t k' t' Hk Hk' Heq.
  destruct (Hal k t Hk) as (R & HR%lookup_lt_Some & _).
  specialize (Hrange k' t' Hk'). lia.
Qed.

End VoxelStorage.

(** X11 on the points (0,0,0), (0.1,0,0), (5,5,5) with colors, which
    occupy the blobs 0 and 1. *)
Lemma VoxelDownSample_shares_no_storage_witness :
  ∃ out σ',
    VoxelDownSample in_order_hashmap (b64 1) cloud_C5 = (Ok out, σ')
    ∧ (∀ k t, point_attr_ out !! k = Some t → 2 ≤ blob_ t < length (heap σ'))
    ∧ self σ' = self cloud_C5.
Proof.
  destruct (VoxelDownSample_shares_no_storage in_order_hashmap cloud_C5 (b64 1)
              {| shape_ := [3; 3]; blob_ := 0; tensor_device := CPU 0 |}
              [[b64 0; b64 0; b64 0]; [b64_lit 1 10; b64 0; b64 0];
               [b64 5; b64 5; b64 5]]
              [[0; 0; 0]; [0; 0; 0]; [5; 5; 5]]%Z)
    as (out & σ' & Hrun & Hrange & _ & _ & Hself & _).
  { reflexivity. }
  { reflexivity. }
  { reflexivity. }
  { apply row_alignedb_spec. vm_compute. reflexivity. }
  { vm_compute. reflexivity. }
  exists out, σ'. split; [exact Hrun|]. split; [exact Hrange|exact Hself].
Defined.

Section VoxelDistinct.
Context {F : Type} `{Scalar F} (hashmap : Hashmap).
Implicit Types (σ : World F) (P : list (list F)) (cells : list (list Z)).

Lemma remove_dups_length_le (l : list (list Z)) :
  length (remove_dups l) ≤ length l.
Proof.
  induction l as [|x l IH]; cbn; [done|]. case_decide; cbn; lia.
Qed.

Lemma remove_dups_length_eq_NoDup (l : list (list Z)) :
  length (remove_dups l) = length l → NoDup l.
Proof.
  induction l as [|x l IH]; cbn; [intros _; apply NoDup_nil_2|].
  pose proof (remove_dups_length_le l). case_decide; cbn; [lia|].
  intros Hlen. apply NoDup_cons_2; [done|]. apply IH. lia.
Qed.

(** X12.  VoxelDownSample returns as many points as the input has exactly
    when the quantized cells of the points are pairwise distinct; then the
    output points are the anchors of all the cells, in the order of the
    input, and every other attribute has the rows it had. *)
Theorem VoxelDownSample_keeps_separated_points
    σ (voxel_size : F) (p : Tensor) P cells :
  point_attr_ (self σ) !! "points" = Some p →
  heap σ !! blob_ p = Some P →
  shape_ p = [length P; 3] →
  row_aligned σ (length P) →
  quantize voxel_size P = Some cells →
  ∃ out σ',
    VoxelDownSample hashmap voxel_size σ = (Ok out, σ')
    ∧ (point_count σ' out = Some (length P) ↔ NoDup cells)
    ∧ (NoDup cells →
       bundle_rows σ' out "points" = Some (anchors voxel_size cells)
       ∧ ∀ k, k ≠ "points" → bundle_rows σ' out k = attr_rows σ k).
Proof.
  intros Hp HP Hshape Hal Hq.
  pose proof (quantize_length _ _ _ Hq) as Hlen.
  destruct (VoxelDownSample_result hashmap σ voxel_size p P cells)
    as (out & σ' & Hrun & Hself & Hframe & Hrows & _ & Hattrs & Hdom & _);
    try done.
  exists out, σ'. split; [done|].
  rewrite (anchors_count hashmap σ' out voxel_size cells Hrows).
  split.
  { split.
    - intros [= Hcount]. apply remove_dups_length_eq_NoDup. lia.
    - intros Hnd. by rewrite remove_dups_length_NoDup, Hlen. }
  intros Hnd. rewrite (Activate_NoDup hashmap cells Hnd) in Hrows, Hattrs.
  rewrite select_all_true in Hrows. split; [done|].
  intros k Hk. unfold bundle_rows, attr_rows.
  destruct (point_attr_ (self σ) !! k) as [t|] eqn:Ht.
  - destruct (Hal k t Ht) as (R & HR & HlenR).
    destruct (Hattrs k t R Hk Ht HR) as (t' & Ht' & Hrows' & _).
    rewrite Ht', Hrows', HR. f_equal.
    replace (length cells) with (length R) by lia. apply select_all_true.
  - destruct (point_attr_ out !! k) as [t'|] eqn:Ht'; [|done].
    destruct (Hdom k) as [Hsome _]. rewrite Ht in Hsome.
    destruct Hsome; [by eexists|done].
Qed.

End VoxelDistinct.

(** X12 on the points (1.4,0,0), (2.1,0,0) with voxel_size 0.7: the cells
    2 and 3 are distinct and both points are kept. *)
Lemma VoxelDownSample_keeps_separated_points_witness :
  ∃ out σ',
    VoxelDownSample in_order_hashmap (b64_lit 7 10) cloud_C9 = (Ok out, σ')
    ∧ point_count σ' out = Some 2
    ∧ bundle_rows σ' out "points" =
        Some (anchors (b64_lit 7 10) [[2; 0; 0]; [3; 0; 0]]%Z).
Proof.
  destruct (VoxelDownSample_keeps_separated_points in_order_hashmap cloud_C9
              (b64_lit 7 10)
              {| shape_ := [2; 3]; blob_ := 0; tensor_device := CPU 0 |}
              [[b64_lit 14 10; b64 0; b64 0]; [b64_lit 21 10; b64 0; b64 0]]
              [[2; 0; 0]; [3; 0; 0]]%Z)
    as (out & σ' & Hrun & Hcount & Hkeep).
  { reflexivity. }
  { reflexivity. }
  { reflexivity. }
  { apply row_alignedb_spec. vm_compute. reflexivity. }
  { vm_compute. reflexivity. }
  assert (NoDup [[2; 0; 0]; [3; 0; 0]]%Z) as Hnd.
  { apply NoDup_cons. split; [|apply NoDup_singleton].
    intros Hin%list_elem_of_singleton. discriminate. }
  exists out, σ'. split; [exact Hrun|]. split.
  - apply Hcount. exact Hnd.
  - apply Hkeep. exact Hnd.
Defined.

Section VoxelAgain.
Context {F : Type} `{Scalar F} (hashmap : Hashmap).
Implicit Types (σ : World F) (P : list (list F)) (cells : list (list Z)).

(** X13.  Whatever the element type and the hash table: when every anchor
    of the output quantizes back to the cell it stands for, down-sampling the
    output again with the same voxel_size returns the same rows for every
    attribute.  (In floating point an anchor may fall back into a neighbour
    cell, and the second run then merges points.) *)
Theorem VoxelDownSample_again_same_rows
    σ (voxel_size : F) (p : Tensor) P cells out1 σ1 :
  point_attr_ (self σ) !! "points" = Some p →
  heap σ !! blob_ p = Some P →
  shape_ p = [length P; 3] →
  row_aligned σ (length P) →
  quantize voxel_size P = Some cells →
  VoxelDownSample hashmap voxel_size σ = (Ok out1, σ1) →
  quantize voxel_size
    (anchors voxel_size (select (Activate hashmap cells) cells))
    = Some (select (Activate hashmap cells) cells) →
  ∃ out2 σ2,
    VoxelDownSample hashmap voxel_size (with_self σ1 out1) = (Ok out2, σ2)
    ∧ ∀ k, bundle_rows σ2 out2 k = bundle_rows σ1 out1 k.
Proof.
  intros Hp HP Hshape Hal Hq Hrun1 Hq2.
  destruct (VoxelDownSample_result hashmap σ voxel_size p P cells)
    as (out & σ' & Hrun & _ & _ & Hrows & (t & Ht & Hts) & _ & _ & Hal1);
    try done.
  rewrite Hrun in Hrun1. injection Hrun1 as <- <-.
  set (kept := select (Activate hashmap cells) cells) in *.
  assert (NoDup kept) as Hnd by apply NoDup_select_Activate.
  assert (length kept = length (remove_dups cells)) as Hkept
    by apply select_Activate_length.
  assert (length (anchors voxel_size kept) = length (remove_dups cells))
    as Hlen1 by (unfold anchors; by rewrite List.length_map).
  assert (heap σ' !! blob_ t = Some (anchors voxel_size kept)) as Hanchors.
  { unfold bundle_rows in Hrows. by rewrite Ht in Hrows. }
  destruct (VoxelDownSample_result hashmap (with_self σ' out) voxel_size t
              (anchors voxel_size kept) kept)
    as (out2 & σ2 & Hrun2 & _ & _ & Hrows2 & _ & Hattrs2 & Hdom2 & _);
    [done | done | | by rewrite Hlen1 | done |].
  { unfold GetShape in Hts. by rewrite Hlen1. }
  rewrite (Activate_NoDup hashmap kept Hnd) in Hrows2, Hattrs2.
  rewrite select_all_true in Hrows2.
  exists out2, σ2. split; [done|]. intros k.
  destruct (decide (k = "points")) as [->|Hk]; [by rewrite Hrows2, Hrows|].
  unfold bundle_rows. cbn [with_self self heap] in *.
  destruct (point_attr_ out !! k) as [t1|] eqn:Ht1.
  - destruct (Hal1 k t1 Ht1) as (R & HR & HlenR). cbn [with_self heap] in HR.
    destruct (Hattrs2 k t1 R Hk Ht1 HR) as (t' & Ht' & Hrows' & _).
    rewrite Ht', Hrows', HR. f_equal.
    replace (length kept) with (length R) by lia. apply select_all_true.
  - destruct (point_attr_ out2 !! k) as [t'|] eqn:Ht'; [|done].
    destruct (Hdom2 k) as [Hsome _]. rewrite Ht1 in Hsome.
    destruct Hsome; [by eexists|done].
Qed.

End VoxelAgain.

(** X13 in binary64 on the points (0,0,0), (0.1,0,0), (5,5,5) with colors
    and voxel_size 1: the anchors (0,0,0) and (5,5,5) quantize back to their
    cells, and the second run returns the points and the colors of the
    first. *)
Lemma VoxelDownSample_again_same_rows_witness :
  ∃ out2 σ2,
    VoxelDownSample in_order_hashmap (b64 1)
      (with_self (VoxelDownSample in_order_hashmap (b64 1) cloud_C5).2
         match (VoxelDownSample in_order_hashmap (b64 1) cloud_C5).1 with
         | Ok out1 => out1
         | _ => PointCloud_from_device (CPU 0)
         end) = (Ok out2, σ2)
    ∧ bundle_rows σ2 out2 "points"
        = Some [[b64 0; b64 0; b64 0]; [b64 5; b64 5; b64 5]]
    ∧ bundle_rows σ2 out2 "colors"
        = Some [[b64 1; b64 0; b64 0]; [b64 0; b64 0; b64 1]].
Proof.
  destruct (VoxelDownSample in_order_hashmap (b64 1) cloud_C5)
    as [r σ1] eqn:Hrun.
  assert (∃ out1, r = Ok out1
            ∧ bundle_rows σ1 out1 "points"
                = Some [[b64 0; b64 0; b64 0]; [b64 5; b64 5; b64 5]]
            ∧ bundle_rows σ1 out1 "colors"
                = Some [[b64 1; b64 0; b64 0]; [b64 0; b64 0; b64 1]])
    as (out1 & -> & Hpoints & Hcolors).
  { vm_compute in Hrun. injection Hrun as <- <-. eexists.
    split; [reflexivity|]. split; vm_compute; reflexivity. }
  destruct (VoxelDownSample_again_same_rows in_order_hashmap cloud_C5 (b64 1)
              {| shape_ := [3; 3]; blob_ := 0; tensor_device := CPU 0 |}
              [[b64 0; b64 0; b64 0]; [b64_lit 1 10; b64 0; b64 0];
               [b64 5; b64 5; b64 5]]
              [[0; 0; 0]; [0; 0; 0]; [5; 5; 5]]%Z out1 σ1)
    as (out2 & σ2 & Hrun2 & Hsame).
  { reflexivity. }
  { reflexivity. }
  { reflexivity. }
  { apply row_alignedb_spec. vm_compute. reflexivity. }
  { vm_compute. reflexivity. }
  { exact Hrun. }
  { vm_compute. reflexivity. }
  exists out2, σ2. cbn [fst snd]. split; [exact Hrun2|].
  rewrite !Hsame. split; [exact Hpoints|exact Hcolors].
Defined.

(** ** Edge cases and constructors *)

Section WithoutPoints.
Context {F : Type} `{Scalar F} (hashmap : Hashmap).
Implicit Types (σ : World F).

(** X16.  On a bundle without "points" (such as the one the constructor
    from a device builds), GetCenter, VoxelDownSample and, with arguments
    that pass validation, Transform, Translate, Scale and Rotate all throw
    [std::out_of_range] from the lookup of "points", and leave the state as
    it was. *)
Theorem operations_without_points
    σ (m v c R : Tensor) (relative : bool) (s voxel_size : F) :
  point_attr_ (self σ) !! "points" = None →
  arg_ok σ m [4; 4] → arg_ok σ v [3] → arg_ok σ c [3] → arg_ok σ R [3; 3] →
  GetCenter σ = (Throw OutOfRange, σ)
  ∧ Transform m σ = (Throw OutOfRange, σ)
  ∧ Translate v relative σ = (Throw OutOfRange, σ)
  ∧ Scale s c σ = (Throw OutOfRange, σ)
  ∧ Rotate R c σ = (Throw OutOfRange, σ)
  ∧ VoxelDownSample hashmap voxel_size σ = (Throw OutOfRange, σ).
Proof.
  intros Hp [Hms Hmd] [Hvs Hvd] [Hcs Hcd] [HRs HRd].
  repeat split.
  - run_monad. by rewrite Hp.
  - unfold Transform. run_monad.
    rewrite (AssertShape_ok _ _ Hms), (AssertDevice_ok _ _ Hmd). run_monad.
    by rewrite Hp.
  - unfold Translate. run_monad.
    rewrite (AssertShape_ok _ _ Hvs), (AssertDevice_ok _ _ Hvd).
    destruct relative; run_monad; by rewrite Hp.
  - unfold Scale. run_monad.
    rewrite (AssertShape_ok _ _ Hcs), (AssertDevice_ok _ _ Hcd). run_monad.
    by rewrite Hp.
  - unfold Rotate. run_monad.
    rewrite (AssertShape_ok _ _ HRs), (AssertDevice_ok _ _ HRd). run_monad.
    rewrite (AssertShape_ok _ _ Hcs), (AssertDevice_ok _ _ Hcd). run_monad.
    by rewrite Hp.
  - unfold VoxelDownSample. run_monad. by rewrite Hp.
Qed.

End WithoutPoints.

(** X16 on the empty bundle, with a 4 x 4 matrix, a vector and a 3 x 3
    matrix on its device. *)
Lemma operations_without_points_witness :
  GetCenter cloud_empty = (Throw OutOfRange, cloud_empty)
  ∧ Transform matrix_Rot cloud_empty = (Throw OutOfRange, cloud_empty)
  ∧ Translate vector_Qc false cloud_empty = (Throw OutOfRange, cloud_empty)
  ∧ Scale (q 2) vector_Qc cloud_empty = (Throw OutOfRange, cloud_empty)
  ∧ Rotate rotation_Qc vector_Qc cloud_empty = (Throw OutOfRange, cloud_empty)
  ∧ VoxelDownSample in_order_hashmap (q 2) cloud_empty
    = (Throw OutOfRange, cloud_empty).
Proof.
  apply (operations_without_points in_order_hashmap cloud_empty matrix_Rot
           vector_Qc vector_Qc rotation_Qc false (q 2) (q 2)).
  - reflexivity.
  - split; reflexivity.
  - split; reflexivity.
  - split; reflexivity.
  - split; reflexivity.
Defined.

(** X17.  The constructor from a points tensor builds what the constructor
    from a map builds from the single entry "points": the bundle with that
    entry alone on the device of the tensor when its shape is N x 3, and
    ShapeMismatch otherwise. *)
Theorem PointCloud_from_points_as_map (points : Tensor) :
  PointCloud_from_points points
  = PointCloud_from_map {[ "points" := points ]}
  ∧ PointCloud_from_points points
    = if shape_compatible (GetShape points) [None; Some 3]
      then Ok {| device_ := GetDevice points;
                 point_attr_ := {[ "points" := points ]} |}
      else Throw ShapeMismatch.
Proof.
  assert (PointCloud_from_points points
          = if shape_compatible (GetShape points) [None; Some 3]
            then Ok {| device_ := GetDevice points;
                       point_attr_ := {[ "points" := points ]} |}
            else Throw ShapeMismatch) as Hpoints.
  { unfold PointCloud_from_points, AssertShapeCompatible.
    destruct (shape_compatible _ _); cbn; [|done].
    by rewrite insert_empty. }
  split; [|done]. rewrite Hpoints.
  by rewrite (PointCloud_from_map_present _ points (lookup_singleton_eq _ _)).
Qed.
